(** * plot_ious_analysis: aggregation and plotting of IoU-versus-clicks results

    A shallow embedding of [scripts/plot_ious_analysis.py].

    Conventions of the embedding:
    - Python [int] is [Z]; in the run as a whole Python [float] / numpy
      [float64] values are idealised as exact rationals [Q] (no rounding, no
      infinities), which is enough for what is stated about lengths, order,
      files and errors; the one not-a-number value the script can meet, the
      0-d result of averaging an empty array, is the constructor [Scalar_nan]
      of [ndarray].  Where the value of an average itself is at stake the
      aggregator is given once more over an open arithmetic, with the
      machine's binary64 numbers as module [F64];
    - [str] is [string], the texts being ASCII; a [pathlib.Path] is the list
      of its parts, an absolute path starting with the part ["/"] (or ["//"],
      which POSIX keeps apart);
    - exceptions are values of [exn]; a computation that may raise returns
      [res A]; the text an exception carries is indicative only;
    - the three glob patterns of the script have the shape [pre*suf]; [glob]
      is pathlib's for [pre] and [suf] without glob metacharacters and path
      separators ([plain_pattern]), and the statements about a pattern built
      from a dataset name or an [--exp-models] entry assume as much;
    - the file system is a tree of directories and files, threaded through
      [main] together with the log of container files opened and figures
      saved;
    - a [dict] is an association list in insertion order ([odict]), since the
      script iterates over its dictionaries. *)

From Stdlib Require Import List Bool Arith ZArith QArith Lia.
From Stdlib Require Import Strings.Ascii Strings.String.
From Stdlib Require Import Sorting.Sorted Sorting.Permutation.
From Stdlib Require Import Numbers.DecimalString Numbers.DecimalN Numbers.DecimalZ.
From Stdlib Require Floats.
Import ListNotations.

Local Open Scope string_scope.
Local Open Scope list_scope.
Local Open Scope Z_scope.

(** ** Exceptions and fallible computations *)

Inductive exn : Type :=
| AssertionError (msg : string)
| ValueError (msg : string)
| KeyError (key : string)
| UnboundLocalError (var : string)
| IndexError
| TypeError
| UnpicklingError
| FileNotFoundError.

Inductive res (A : Type) : Type :=
| Ok (a : A)
| Err (e : exn).
Arguments Ok {A} a.
Arguments Err {A} e.

Definition bind {A B : Type} (m : res A) (k : A -> res B) : res B :=
  match m with
  | Ok a => k a
  | Err e => Err e
  end.

Notation "x <- m ;; k" := (bind m (fun x => k))
  (at level 61, m at next level, right associativity).
Notation "' p <- m ;; k" := (bind m (fun x => let p := x in k))
  (at level 61, p pattern, m at next level, right associativity).

(** ** Strings *)

Module Str.

(** [s.split(sep)] for a one-character separator: never empty. *)
Fixpoint split (sep : ascii) (s : string) : list string :=
  match s with
  | EmptyString => [EmptyString]
  | String c s' =>
      if Ascii.eqb c sep then EmptyString :: split sep s'
      else match split sep s' with
           | [] => [String c EmptyString]
           | w :: ws => String c w :: ws
           end
  end.

(** [needle in hay] on strings. *)
Fixpoint contains (needle hay : string) : bool :=
  String.prefix needle hay
  || match hay with
     | EmptyString => false
     | String _ hay' => contains needle hay'
     end.

(** [s.endswith(suffix)]. *)
Fixpoint endswith (suffix s : string) : bool :=
  String.eqb suffix s
  || match s with
     | EmptyString => false
     | String _ s' => endswith suffix s'
     end.

(** [s.rfind(c)] as the text before and after the last occurrence. *)
Fixpoint rsplit1 (c : ascii) (s : string) : option (string * string) :=
  match s with
  | EmptyString => None
  | String a s' =>
      match rsplit1 c s' with
      | Some (l, r) => Some (String a l, r)
      | None => if Ascii.eqb a c then Some (EmptyString, s') else None
      end
  end.

Definition is_space (c : ascii) : bool :=
  let n := nat_of_ascii c in
  ((9 <=? n) && (n <=? 13))%nat || (n =? 32)%nat.

Fixpoint lstrip (s : string) : string :=
  match s with
  | String c s' => if is_space c then lstrip s' else s
  | EmptyString => EmptyString
  end.

Fixpoint rstrip (s : string) : string :=
  match s with
  | EmptyString => EmptyString
  | String c s' =>
      match rstrip s' with
      | EmptyString => if is_space c then EmptyString else String c EmptyString
      | t => String c t
      end
  end.

Definition strip (s : string) : string := rstrip (lstrip s).

Fixpoint zeros (n : nat) : string :=
  match n with
  | O => EmptyString
  | S n' => String "0" (zeros n')
  end.

End Str.

(** [int(s)] on an ASCII text without underscores, as the file names of the
    statements below give it: surrounding blanks, one optional sign, then at
    least one digit; anything else is a [ValueError].  (Python also reads
    the decimal digits of other scripts and single underscores between
    digits.) *)
Definition int (s : string) : res Z :=
  let t := Str.strip s in
  let parsed :=
    match t with
    | String "+" t' =>
        match t' with
        | String "-" _ => None
        | _ => option_map (fun d => Z.of_int (Decimal.Pos d)) (NilZero.uint_of_string t')
        end
    | _ => option_map Z.of_int (NilZero.int_of_string t)
    end in
  match parsed with
  | Some z => Ok z
  | None => Err (ValueError "invalid literal for int()")
  end.

(** [f'{index:03d}']: sign, then the decimal digits padded with zeros to a
    total width of at least three. *)
Definition format_03d (index : Z) : string :=
  let digits := NilZero.string_of_uint (N.to_uint (Z.abs_N index)) in
  if index <? 0
  then String "-" (Str.zeros (2 - String.length digits) ++ digits)
  else Str.zeros (3 - String.length digits) ++ digits.

(** ** Sequences: slicing and sorting *)

(** [x[:n]] on a list or a 1-d array: a negative bound counts from the end. *)
Definition slice_to {A : Type} (n : Z) (x : list A) : list A :=
  if n <? 0
  then firstn (Z.to_nat (Z.max 0 (Z.of_nat (List.length x) + n))) x
  else firstn (Z.to_nat n) x.

Fixpoint zip_with {A B C : Type} (f : A -> B -> C) (l : list A) (m : list B) : list C :=
  match l, m with
  | a :: l', b :: m' => f a b :: zip_with f l' m'
  | _, _ => []
  end.

Section Sorting.
Context {A : Type} (leb : A -> A -> bool).

Fixpoint insert_sorted (x : A) (l : list A) : list A :=
  match l with
  | [] => [x]
  | y :: l' => if leb x y then x :: l else y :: insert_sorted x l'
  end.

(** [sorted(l)] and [l.sort()]: a stable sort, here by insertion. *)
Fixpoint sorted (l : list A) : list A :=
  match l with
  | [] => []
  | x :: l' => insert_sorted x (sorted l')
  end.
End Sorting.

(** ** Dictionaries in insertion order *)

Definition odict (V : Type) : Type := list (string * V).

Fixpoint od_get {V : Type} (k : string) (d : odict V) : option V :=
  match d with
  | [] => None
  | (k', v) :: d' => if String.eqb k k' then Some v else od_get k d'
  end.

(** [d[k] = v]: an existing key keeps its place, a new one goes last. *)
Fixpoint od_set {V : Type} (k : string) (v : V) (d : odict V) : odict V :=
  match d with
  | [] => [(k, v)]
  | (k', v') :: d' =>
      if String.eqb k k' then (k, v) :: d' else (k', v') :: od_set k v d'
  end.

(** ** Paths *)

Definition path : Type := list string.

(** [Path(s)]: the parts of [s], empty and ["."] components dropped.  The
    anchor is ["/"], or ["//"] for a text that starts with exactly two
    slashes. *)
Definition Path (s : string) : path :=
  let comps :=
    filter (fun c => negb (String.eqb c EmptyString || String.eqb c ".")) (Str.split "/" s) in
  if String.prefix "//" s && negb (String.prefix "///" s) then "//" :: comps
  else if String.prefix "/" s then "/" :: comps
  else comps.

(** The two anchors of a POSIX path. *)
Definition is_anchor (part : string) : bool :=
  String.eqb part "/" || String.eqb part "//".

Definition is_absolute (p : path) : bool :=
  match p with
  | anchor :: _ => is_anchor anchor
  | [] => false
  end.

(** [p / q] *)
Definition joinpath (p q : path) : path :=
  if is_absolute q then q else p ++ q.

(** [p.name] *)
Definition name (p : path) : string :=
  if is_absolute p then last (tl p) EmptyString else last p EmptyString.

(** [p.parent] *)
Definition parent (p : path) : path :=
  match p with
  | [anchor] => if is_anchor anchor then p else []
  | _ => removelast p
  end.

Definition stem_of_name (nm : string) : string :=
  match Str.rsplit1 "." nm with
  | Some (l, r) => if String.eqb l EmptyString || String.eqb r EmptyString then nm else l
  | None => nm
  end.

(** [p.stem]: the name without its last suffix. *)
Definition stem (p : path) : string := stem_of_name (name p).

(** Paths compare as the tuples of their parts, strings by code point. *)
Fixpoint path_compare (p q : path) : comparison :=
  match p, q with
  | [], [] => Eq
  | [], _ :: _ => Lt
  | _ :: _, [] => Gt
  | a :: p', b :: q' =>
      match String.compare a b with
      | Eq => path_compare p' q'
      | c => c
      end
  end.

Definition path_leb (p q : path) : bool :=
  match path_compare p q with
  | Gt => false
  | _ => true
  end.

(** ** Numeric arrays *)

Local Open Scope Q_scope.

(** The value of [np.array(rows).mean(0)]: a vector, or the 0-d [nan] that
    numpy returns for an empty array. *)
Inductive ndarray : Type :=
| Scalar_nan
| Vec (v : list Q).

Definition Qsum (l : list Q) : Q := fold_left Qplus l 0.

(** [np.array(rows).mean(0)] in exact arithmetic: the rows are added up and
    the sum is divided by their number; rows of unequal length do not make
    an array.  The same with the machine's rounding is [F64.np_mean0]. *)
Definition np_mean0 (rows : list (list Q)) : res ndarray :=
  match rows with
  | [] => Ok Scalar_nan
  | r :: rs =>
      if forallb (fun x => Nat.eqb (List.length x) (List.length r)) rs
      then Ok (Vec (map (fun s => s / inject_Z (Z.of_nat (List.length rows)))
                        (fold_left (zip_with Qplus) rs r)))
      else Err (ValueError "inhomogeneous shape")
  end.

(** [1 + np.arange(n)] *)
Definition one_plus_arange (n : nat) : list Q :=
  map (fun i => 1 + inject_Z (Z.of_nat i)) (seq 0 n).

(** [np.ones(n)] *)
Definition ones (n : nat) : list Q := repeat 1 n.

(** [np.diff(x)]: [x[1:] - x[:-1]]. *)
Definition np_diff (x : list Q) : list Q :=
  zip_with Qminus (tl x) (removelast x).

(** [np.trapz(y, x)]: [(d * (y[1:] + y[:-1]) / 2.0).sum()], in exact
    arithmetic. *)
Definition trapz (y x : list Q) : Q :=
  Qsum (zip_with (fun d s => d * s / 2) (np_diff x)
                 (zip_with Qplus (tl y) (removelast y))).

Definition Qlt_bool (a b : Q) : bool := negb (Qle_bool b a).

(** [sklearn.metrics.auc(x, y)] *)
Definition auc (x y : list Q) : res Q :=
  if negb (Nat.eqb (List.length x) (List.length y))
  then Err (ValueError "inconsistent numbers of samples")
  else if (List.length x <? 2)%nat
  then Err (ValueError "At least 2 points are needed to compute area under curve")
  else
    let dx := np_diff x in
    direction <- (if existsb (fun d => Qlt_bool d 0) dx
                  then if forallb (fun d => Qle_bool d 0) dx
                       then Ok (-1)
                       else Err (ValueError "x is neither increasing nor decreasing")
                  else Ok 1) ;;
    Ok (direction * trapz y x).

(** [min(v)] and [max(v)] of the builtins: an empty argument raises. *)
Definition py_min (v : list Q) : res Q :=
  match v with
  | [] => Err (ValueError "min() arg is an empty sequence")
  | a :: v' => Ok (fold_left (fun m b => if Qlt_bool b m then b else m) v' a)
  end.

Definition py_max (v : list Q) : res Q :=
  match v with
  | [] => Err (ValueError "max() arg is an empty sequence")
  | a :: v' => Ok (fold_left (fun m b => if Qlt_bool m b then b else m) v' a)
  end.

(** ** Result containers, figures and the file system *)

(** What [pickle.load] yields for one container file. *)
Record container : Type := {
  dataset_name : string;
  model_name : string;
  all_ious : list (list Q)
}.

(** One [plt.plot] call: the legend holds [label] and [auc_normalized]. *)
Record curve : Type := {
  label : string;
  color_style : option (string * string);
  auc_normalized : Q;
  values : list Q;
  milestones : list (nat * Q)
}.

Record figure : Type := {
  title : string;
  curves : list curve;
  yticks : Z * Z * Z;
  xticks : nat
}.

Inductive content : Type :=
| Pickle (data : container)
| Png (fig : figure)
| Blob.

#[warnings="-register-all"]
Inductive node : Type :=
| File (c : content)
| Dir (entries : list (string * node)).

Fixpoint walk (n : node) (p : list string) : option node :=
  match p with
  | [] => Some n
  | c :: p' =>
      match n with
      | Dir es =>
          match od_get c es with
          | Some n' => walk n' p'
          | None => None
          end
      | File _ => None
      end
  end.

(** Paths are resolved from the root of the tree, which is also the working
    directory; [".."] parts and links are not modelled. *)
Definition resolve (fs : node) (p : path) : option node :=
  walk fs (if is_absolute p then tl p else p).

(** The names in a directory, in the order the system lists them; nothing for
    what is not a directory. *)
Definition scandir (fs : node) (dir : path) : list string :=
  match resolve fs dir with
  | Some (Dir es) => map fst es
  | _ => []
  end.

(** [p.is_dir()] *)
Definition is_dir (fs : node) (p : path) : bool :=
  match resolve fs p with
  | Some (Dir _) => true
  | _ => false
  end.

(** A one-part pattern [pre*suf] where [pre] and [suf] are plain: none of
    [*], [?], [[] (which pathlib reads as wildcards) and no [/] (which would
    make several parts, or an absolute pattern that pathlib refuses). *)
Definition fnmatch (pre suf nm : string) : bool :=
  String.prefix pre nm && Str.endswith suf nm
  && (String.length pre + String.length suf <=? String.length nm)%nat.

(** [dir.glob(pre + '*' + suf)] for plain [pre] and [suf]: the entries of
    [dir] that match, in the order of the listing; nothing when [dir] is not
    a directory. *)
Definition glob (fs : node) (dir : path) (pre suf : string) : list path :=
  map (fun nm => dir ++ [nm]) (filter (fnmatch pre suf) (scandir fs dir)).

(** Writing a file: its directory must exist, and a directory of that name
    must not. *)
Fixpoint put (n : node) (p : list string) (c : content) : option node :=
  match n, p with
  | Dir es, [nm] =>
      match od_get nm es with
      | Some (Dir _) => None
      | _ => Some (Dir (od_set nm (File c) es))
      end
  | Dir es, d :: p' =>
      match od_get d es with
      | Some n' =>
          match put n' p' c with
          | Some n'' => Some (Dir (od_set d n'' es))
          | None => None
          end
      | None => None
      end
  | _, _ => None
  end.

(** [p.mkdir(parents=True, exist_ok=True)] *)
Fixpoint mkdir_p (n : node) (p : list string) : option node :=
  match n, p with
  | Dir _, [] => Some n
  | Dir es, d :: p' =>
      match mkdir_p (match od_get d es with Some n' => n' | None => Dir [] end) p' with
      | Some n'' => Some (Dir (od_set d n'' es))
      | None => None
      end
  | File _, _ => None
  end.

(** The state a run acts on: the file system, the container files opened so
    far and the figures saved so far. *)
Record world : Type := {
  fs : node;
  opened : list path;
  saved : list path
}.

(** ** Command line *)

Record Args : Type := {
  folder : option string;
  files : option (list string);
  model_dirs : option (list string);
  exp_models : option (list string);
  mode : option (list string);
  datasets : list string;
  n_clicks : Z;
  plots_path : path
}.

Record Cfg : Type := {
  EXPS_PATH : path
}.

(** The namespace as [argparse] leaves it, before [parse_args] rewrites
    [datasets] and [plots_path]. *)
Record Namespace : Type := {
  ns_folder : option string;
  ns_files : option (list string);
  ns_model_dirs : option (list string);
  ns_exp_models : option (list string);
  ns_mode : option (list string);
  ns_datasets : string;
  ns_n_clicks : Z;
  ns_plots_path : string
}.

(** The part of [parse_args] after [parser.parse_args()]; [cfg] is what
    [load_config_file] returned, with [EXPS_PATH] already a path. *)
Definition parse_args (root : node) (ns : Namespace) (cfg : Cfg) : res (node * Args) :=
  let pp :=
    if String.eqb (ns_plots_path ns) EmptyString
    then joinpath (EXPS_PATH cfg) (Path "evaluation_logs/iou_analysis")
    else Path (ns_plots_path ns) in
  match mkdir_p root (if is_absolute pp then tl pp else pp) with
  | Some root' =>
      Ok (root', {| folder := ns_folder ns;
                    files := ns_files ns;
                    model_dirs := ns_model_dirs ns;
                    exp_models := ns_exp_models ns;
                    mode := ns_mode ns;
                    datasets := Str.split "," (ns_datasets ns);
                    n_clicks := ns_n_clicks ns;
                    plots_path := pp |})
  | None => Err FileNotFoundError
  end.

(** ** Display tables *)

Definition model_name_mapper : odict string :=
  [("SimpleClick(ViT-B)_NoBRS", "SimpleClick-ViT-B (SBD)");
   ("MFP_SimpleClick_V8_NoBRS", "Ours-ViT-B (SBD)");
   ("GPCIS-ResNet50_Baseline", "GPCIS-ResNet34 (SBD)");
   ("RITM-HRNet18_NoBRS", "RITM-HRNet18 (SBD)");
   ("CDNet-HRNet18_CDNet", "CDNet-ResNet34 (SBD)");
   ("cocolvis_vitl_epoch_54_NoBRS", "Ours-ViT-L (C+L)");
   ("cocolvis_vith_epoch_52_NoBRS", "Ours-ViT-H (C+L)");
   ("052_NoBRS", "Ours-ViT-H (C+L)");
   ("sbd_h18_itermask_NoBRS", "RITM-HRNet18 (SBD)");
   ("coco_lvis_h32_itermask_NoBRS", "RITM-HRNet32 (C+L)");
   ("cocolvis_segformer_b3_s2_FocalClick", "FocalClick-SegF-B3 (C+L)");
   ("cocolvis_segformer_b0_s2_FocalClick", "FocalClick-SegF-B0 (C+L)");
   ("sbd_cdnet_resnet34_CDNet", "CDNet-ResNet-34 (SBD)");
   ("cocolvis_cdnet_resnet34_CDNet", "CDNet-ResNet-34 (C+L)")]%string.

Definition color_style_mapper : odict (string * string) :=
  [("Ours-ViT-B (SBD)", ("#0000ff", "-"));
   ("SimpleClick-ViT-B (SBD)", ("#ff8000", "-"));
   ("GPCIS-ResNet34 (SBD)", ("#0080ff", "-"));
   ("CDNet-ResNet34 (SBD)", ("#008000", "-"));
   ("Ours-ViT-L (C+L)", ("#8000ff", "-"));
   ("Ours-ViT-H (C+L)", ("#ff8000", "-"));
   ("RITM-HRNet18 (SBD)", ("#444444", "-"));
   ("RITM-HRNet32 (C+L)", ("#444444", ":"));
   ("FocalClick-SegF-B0 (C+L)", ("#888888", ":"));
   ("FocalClick-SegF-B3 (C+L)", ("#888888", ":"));
   ("CDNet-ResNet-34 (SBD)", (EmptyString, ":"));
   ("CDNet-ResNet-34 (C+L)", (EmptyString, ":"))]%string.

Definition range_mapper : odict (Z * Z * Z) :=
  [("SBD", (65, 96, 3));
   ("DAVIS", (66, 97, 3));
   ("Pascal VOC", (66, 100, 3));
   ("COCO_MVal", (60, 97, 3));
   ("BraTS", (10, 100, 10));
   ("OAIZIB", (0, 85, 10));
   ("ssTEM", (5, 100, 10));
   ("GrabCut", (80, 100, 2));
   ("Berkeley", (80, 100, 2))]%Z.

(** ** The input resolver *)

(** [Path(cfg.EXPS_PATH) / 'evaluation_logs' / rel_exp_path] *)
Definition exp_path_prefix (cfg : Cfg) (rel_exp_path : string) : path :=
  joinpath (joinpath (EXPS_PATH cfg) (Path "evaluation_logs")) (Path rel_exp_path).

(** [candidates]: what [exp_path_prefix.parent.glob(exp_path_prefix.stem + '*')]
    lists, directories and plain files alike. *)
Definition exp_candidates (root : node) (cfg : Cfg) (rel_exp_path : string) : list path :=
  glob root (parent (exp_path_prefix cfg rel_exp_path))
       (stem (exp_path_prefix cfg rel_exp_path)) EmptyString.

(** One turn of the [--exp-models] loop: the files one entry contributes. *)
Definition exp_model_files (root : node) (cfg : Cfg) (entry : string) : res (list path) :=
  match Str.split ":" entry with
  | [rel_exp_path; checkpoint_prefix] =>
      match exp_candidates root cfg rel_exp_path with
      | [exp_path] =>
          Ok (sorted path_leb
                (glob root (joinpath exp_path (Path "plots")) checkpoint_prefix ".pickle"))
      | _ => Err (AssertionError "Invalid experiment path.")
      end
  | _ => Err (ValueError "wrong number of values to unpack")
  end.

Fixpoint exp_models_loop (root : node) (cfg : Cfg) (entries : list string)
    (files_list : list path) : res (list path) :=
  match entries with
  | [] => Ok files_list
  | entry :: rest =>
      found <- exp_model_files root cfg entry ;;
      exp_models_loop root cfg rest (files_list ++ found)
  end.

(** The four branches that may bind the local [files_list]; [None] is the
    variable left unbound. *)
Definition resolve_source (root : node) (args : Args) (cfg : Cfg) : res (option (list path)) :=
  match folder args with
  | Some f => Ok (Some (glob root (Path f) EmptyString ".pickle"))
  | None =>
      match files args with
      | Some fl => Ok (Some (map Path fl))
      | None =>
          match model_dirs args with
          | Some dirs =>
              Ok (Some (flat_map
                          (fun d => glob root (joinpath (Path d) (Path "plots"))
                                         EmptyString ".pickle")
                          dirs))
          | None =>
              match exp_models args with
              | Some entries =>
                  fl <- exp_models_loop root cfg entries [] ;;
                  Ok (Some fl)
              | None => Ok None
              end
          end
      end
  end.

(** Reading a local variable. *)
Definition read_local {A : Type} (var : string) (v : option A) : res A :=
  match v with
  | Some a => Ok a
  | None => Err (UnboundLocalError var)
  end.

(** [any(s in file.stem for s in subs)] *)
Definition stem_has_any (subs : list string) (file : path) : bool :=
  existsb (fun s => Str.contains s (stem file)) subs.

Definition get_files_list (root : node) (args : Args) (cfg : Cfg) : res (list path) :=
  files_list <- resolve_source root args cfg ;;
  files_list <- match mode args with
                | Some modes =>
                    fl <- read_local "files_list" files_list ;;
                    Ok (Some (filter (stem_has_any modes) fl))
                | None => Ok files_list
                end ;;
  fl <- read_local "files_list" files_list ;;
  Ok (sorted path_leb (filter (stem_has_any (datasets args)) fl)).

(** ** The aggregator *)

(** [x[:] if n_clicks == -1 else x[:n_clicks]] *)
Definition truncate_ious (n_clicks : Z) (x : list Q) : list Q :=
  if (n_clicks =? -1)%Z then x else slice_to n_clicks x.

Definition aggregated : Type := odict (odict ndarray).

(** [aggregated_plot_data[ds][model] = value] on a [defaultdict(dict)]. *)
Definition agg_set (ds model : string) (value : ndarray) (agg : aggregated) : aggregated :=
  let inner := match od_get ds agg with
               | Some d => d
               | None => []
               end in
  od_set ds (od_set model value inner) agg.

Definition agg_get (ds model : string) (agg : aggregated) : option ndarray :=
  match od_get ds agg with
  | Some d => od_get model d
  | None => None
  end.

(** The loop body of the aggregator once the container is loaded. *)
Definition aggregate_one (n : Z) (data : container) (agg : aggregated) : res aggregated :=
  let ious := map (truncate_ious n) (all_ious data) in
  mean <- np_mean0 ious ;;
  Ok (agg_set (dataset_name data) (model_name data) mean agg).

(** [open(file, 'rb')] followed by [pickle.load]. *)
Definition load_pickle (w : world) (file : path) : world * res container :=
  match resolve (fs w) file with
  | Some (File c) =>
      let w' := {| fs := fs w; opened := opened w ++ [file]; saved := saved w |} in
      match c with
      | Pickle data => (w', Ok data)
      | _ => (w', Err UnpicklingError)
      end
  | _ => (w, Err FileNotFoundError)
  end.

Fixpoint aggregate (w : world) (n : Z) (files_list : list path) (agg : aggregated)
    : world * res aggregated :=
  match files_list with
  | [] => (w, Ok agg)
  | file :: rest =>
      match load_pickle w file with
      | (w', Ok data) =>
          match aggregate_one n data agg with
          | Ok agg' => aggregate w' n rest agg'
          | Err e => (w', Err e)
          end
      | (w', Err e) => (w', Err e)
      end
  end.

(** ** The aggregator over any arithmetic

    Lines 117-118 once more with the numbers left open: [zero] and [add] are
    the zero and the addition of the number type and [over s m] the division
    of [s] by the count [m].  At binary64 ([F64]) this is what numpy computes
    for [float64] sequences of at least two clicks: the sum starts from the
    identity [0.0] and takes the rows in turn, and the division rounds once
    more.  (A single column is summed by numpy in another order.) *)

Module Generic.

Record container (F : Type) : Type := {
  dataset_name : string;
  model_name : string;
  all_ious : list (list F)
}.
Arguments dataset_name {F} c.
Arguments model_name {F} c.
Arguments all_ious {F} c.

(** [x[:] if n_clicks == -1 else x[:n_clicks]] *)
Definition truncate_ious {F : Type} (n_clicks : Z) (x : list F) : list F :=
  if (n_clicks =? -1)%Z then x else slice_to n_clicks x.

Section Arithmetic.
Context {F : Type}.
Variable zero : F.
Variable add : F -> F -> F.
Variable over : F -> nat -> F.

(** [np.array(rows).mean(0)]; [None] is the 0-d [nan] of an empty array. *)
Definition np_mean0 (rows : list (list F)) : res (option (list F)) :=
  match rows with
  | [] => Ok None
  | r :: rs =>
      if forallb (fun x => Nat.eqb (List.length x) (List.length r)) rs
      then Ok (Some (map (fun s => over s (List.length rows))
                         (fold_left (zip_with add) rows
                                    (repeat zero (List.length r)))))
      else Err (ValueError "inhomogeneous shape")
  end.

Definition aggregate_one (n : Z) (data : container F)
    (agg : odict (odict (option (list F)))) : res (odict (odict (option (list F)))) :=
  mean <- np_mean0 (map (truncate_ious n) (all_ious data)) ;;
  let inner := match od_get (dataset_name data) agg with
               | Some d => d
               | None => []
               end in
  Ok (od_set (dataset_name data) (od_set (model_name data) mean inner) agg).

End Arithmetic.

(** [aggregated_plot_data[ds][model]] *)
Definition agg_get {V : Type} (ds model : string) (agg : odict (odict V)) : option V :=
  match od_get ds agg with
  | Some d => od_get model d
  | None => None
  end.

End Generic.

(** Binary64, the number type of [float] and [np.float64]. *)
Module F64.

Definition t : Set := PrimFloat.float.

Definition of_Z (z : Z) : t := PrimFloat.of_uint63 (Uint63.of_Z z).

Definition zero : t := of_Z 0.

(** [s / m] for a count [m]. *)
Definition over (s : t) (m : nat) : t := PrimFloat.div s (of_Z (Z.of_nat m)).

(** The value a decimal literal [a/b] denotes: the quotient, rounded. *)
Definition ratio (a b : Z) : t := PrimFloat.div (of_Z a) (of_Z b).

(** The rational a finite binary64 number stands for. *)
Definition exact (x : t) : option Q :=
  match FloatOps.Prim2SF x with
  | SpecFloat.S754_zero _ => Some 0
  | SpecFloat.S754_finite sign m e =>
      let magnitude :=
        if (0 <=? e)%Z then inject_Z (Z.pos m * 2 ^ e)
        else Qmake (Z.pos m) (Z.to_pos (2 ^ (- e))) in
      Some (if sign then - magnitude else magnitude)
  | _ => None
  end.

Definition np_mean0 (rows : list (list t)) : res (option (list t)) :=
  Generic.np_mean0 zero PrimFloat.add over rows.

Definition aggregate_one (n : Z) (data : Generic.container t)
    (agg : odict (odict (option (list t)))) : res (odict (odict (option (list t)))) :=
  Generic.aggregate_one zero PrimFloat.add over n data agg.

End F64.

(** ** Metrics and labels *)

(** Lines 146-149: the area under the curve over [x = 1..n], divided by the
    area under the constant 1 over the same [x]. *)
Definition normalized_auc (model_results : list Q) : res Q :=
  let n := List.length model_results in
  let x := one_plus_arange n in
  total_area <- auc x (ones n) ;;
  area <- auc x model_results ;;
  Ok (area / total_area).

(** Lines 126-127: [if n_clicks != -1: model_results = model_results[:n_clicks]];
    a 0-d value cannot be sliced. *)
Definition truncate_results (n : Z) (model_results : ndarray) : res ndarray :=
  if negb (n =? -1)%Z
  then match model_results with
       | Vec v => Ok (Vec (slice_to n v))
       | Scalar_nan => Err IndexError
       end
  else Ok model_results.

(** [plt.plot(..., color=color, linestyle=style)] as far as it can fail here:
    the colors of [color_style_mapper] are ['#rrggbb'] texts, which are
    colors, and the empty text, which is not one: the line is refused with a
    [ValueError] when it is made.  Without an entry in the table the color is
    [None] and the line takes the next color of the cycle. *)
Definition plt_plot (how : option (string * string)) : res unit :=
  match how with
  | Some (color, _) =>
      if String.eqb color EmptyString
      then Err (ValueError "'' is not a valid value for color")
      else Ok tt
  | None => Ok tt
  end.

(** The body of the loop over the models of one dataset. *)
Definition model_curve (n : Z) (name_of_model : string) (model_results : ndarray)
    : res curve :=
  model_results <- truncate_results n model_results ;;
  match model_results with
  | Scalar_nan => Err TypeError
  | Vec v =>
      let v := map (fun q => q * 100) v in
      _ <- py_min v ;;
      _ <- py_max v ;;
      let shown :=
        map (fun click_id => (click_id, nth (click_id - 1) v 0))
            (filter (fun click_id => (click_id <=? List.length v)%nat)
                    [1; 3; 5; 10; 20]%nat) in
      let lbl := match od_get name_of_model model_name_mapper with
                 | Some l => l
                 | None => name_of_model
                 end in
      a <- normalized_auc v ;;
      _ <- plt_plot (od_get lbl color_style_mapper) ;;
      Ok {| label := lbl;
            color_style := od_get lbl color_style_mapper;
            auc_normalized := a;
            values := v;
            milestones := shown |}
  end.

Fixpoint model_curves (n : Z) (dataset_results : odict ndarray) : res (list curve) :=
  match dataset_results with
  | [] => Ok []
  | (name_of_model, model_results) :: rest =>
      c <- model_curve n name_of_model model_results ;;
      cs <- model_curves n rest ;;
      Ok (c :: cs)
  end.

(** ** The renderer *)

Definition target_name (ds : string) (index : Z) : string :=
  ds ++ "_" ++ format_03d index ++ ".png".

(** [get_target_file_path]; the result is the path whose [str] the source
    returns. *)
Definition get_target_file_path (root : node) (plots : path) (ds : string) : res path :=
  let previous_plots := sorted path_leb (glob root plots (ds ++ "_") ".png") in
  index <- match previous_plots with
           | [] => Ok 0%Z
           | _ :: _ =>
               i <- int (last (Str.split "_" (stem (last previous_plots []))) EmptyString) ;;
               Ok (i + 1)%Z
           end ;;
  Ok (plots ++ [target_name ds index]).

(** [plt.savefig(fig_path)] *)
Definition savefig (w : world) (fig_path : path) (fig : figure) : world * res unit :=
  match put (fs w) (if is_absolute fig_path then tl fig_path else fig_path) (Png fig) with
  | Some root' =>
      ({| fs := root'; opened := opened w; saved := saved w ++ [fig_path] |}, Ok tt)
  | None => (w, Err FileNotFoundError)
  end.

(** Lines 153-154: the name used for the title, the axis-range lookup and
    the file name. *)
Definition display_name (ds : string) : string :=
  if String.eqb ds "PascalVOC" then "Pascal VOC" else ds.

(** The body of the loop over datasets. *)
Definition render_dataset (w : world) (args : Args) (ds : string)
    (dataset_results : odict ndarray) : world * res unit :=
  match model_curves (n_clicks args) dataset_results with
  | Err e => (w, Err e)
  | Ok cs =>
      let ds := display_name ds in
      match od_get ds range_mapper with
      | None => (w, Err (KeyError ds))
      | Some ticks =>
          match get_target_file_path (fs w) (plots_path args) ds with
          | Err e => (w, Err e)
          | Ok fig_path =>
              savefig w fig_path
                {| title := ds;
                   curves := cs;
                   yticks := ticks;
                   xticks := fold_left Nat.max (map (fun c => List.length (values c)) cs) 0%nat |}
          end
      end
  end.

Fixpoint render_all (w : world) (args : Args) (agg : aggregated) : world * res unit :=
  match agg with
  | [] => (w, Ok tt)
  | (ds, dataset_results) :: rest =>
      match render_dataset w args ds dataset_results with
      | (w', Ok _) => render_all w' args rest
      | (w', Err e) => (w', Err e)
      end
  end.

(** [main], from the parsed arguments on. *)
Definition main (root : node) (args : Args) (cfg : Cfg) : world * res unit :=
  let w := {| fs := root; opened := []; saved := [] |} in
  match get_files_list root args cfg with
  | Err e => (w, Err e)
  | Ok files_list =>
      match aggregate w (n_clicks args) files_list [] with
      | (w', Err e) => (w', Err e)
      | (w', Ok agg) => render_all w' args agg
      end
  end.

(** ** Sample data *)

Module Sample.

Definition ious_a : list (list Q) := [[1 # 2; 3 # 4; 1]; [1 # 4; 1 # 2; 3 # 4]].

Definition grabcut : container :=
  {| dataset_name := "GrabCut"; model_name := "RITM-HRNet18_NoBRS"; all_ious := ious_a |}.

Definition berkeley : container :=
  {| dataset_name := "Berkeley"; model_name := "RITM-HRNet18_NoBRS"; all_ious := ious_a |}.

Definition unknown : container :=
  {| dataset_name := "Cityscapes"; model_name := "m"; all_ious := ious_a |}.

Definition cfg : Cfg := {| EXPS_PATH := ["exps"] |}.

Definition args0 : Args :=
  {| folder := None; files := None; model_dirs := None; exp_models := None;
     mode := None; datasets := ["GrabCut"]; n_clicks := -1; plots_path := ["out"] |}.

Definition with_files (fl : list string) (modes : option (list string))
    (ds : list string) : Args :=
  {| folder := None; files := Some fl; model_dirs := None; exp_models := None;
     mode := modes; datasets := ds; n_clicks := -1; plots_path := ["out"] |}.

Definition with_folder (f : string) (ds : list string) : Args :=
  {| folder := Some f; files := None; model_dirs := None; exp_models := None;
     mode := None; datasets := ds; n_clicks := -1; plots_path := ["out"] |}.

Definition capped (n : Z) (args : Args) : Args :=
  {| folder := folder args; files := files args; model_dirs := model_dirs args;
     exp_models := exp_models args; mode := mode args; datasets := datasets args;
     n_clicks := n; plots_path := plots_path args |}.

Definition namespace0 : Namespace :=
  {| ns_folder := Some "res"; ns_files := None; ns_model_dirs := None;
     ns_exp_models := None; ns_mode := None; ns_datasets := "GrabCut,Berkeley";
     ns_n_clicks := -1; ns_plots_path := EmptyString |}.

Definition with_exp_models (entries : list string) : Args :=
  {| folder := None; files := None; model_dirs := None; exp_models := Some entries;
     mode := None; datasets := ["GrabCut"]; n_clicks := -1; plots_path := ["out"] |}.

Definition results_a : odict ndarray :=
  [("RITM-HRNet18_NoBRS", Vec [3 # 8; 5 # 8; 7 # 8])].

Definition empty_out : world :=
  {| fs := Dir [("out", Dir [])]; opened := []; saved := [] |}.

Definition crowded_out : node :=
  Dir [("out", Dir [("GrabCut_999.png", File Blob); ("GrabCut_1000.png", File Blob)])].

Definition two_plots : node :=
  Dir [("out", Dir [("GrabCut_001.png", File Blob); ("notes.txt", File Blob);
                    ("GrabCut_000.png", File Blob)])].

Definition root : node :=
  Dir [("res", Dir [("GrabCut_NoBRS.pickle", File (Pickle grabcut));
                    ("Berkeley_NoBRS.pickle", File (Pickle berkeley));
                    ("Cityscapes_NoBRS.pickle", File (Pickle unknown));
                    ("notes.txt", File Blob)]);
       ("out", Dir []);
       ("exps",
        Dir [("evaluation_logs",
              Dir [("bar.txt", File Blob);
                   ("sbd_a",
                    Dir [("plots",
                          Dir [("ckpt_GrabCut_NoBRS.pickle", File (Pickle grabcut))])]);
                   ("sbd_b", Dir [])])])].

End Sample.

(** ** Vocabulary of the statements *)

(** The length of a truncated sequence, for every cap. *)
Definition truncated_length (n : Z) (len : nat) : nat :=
  if (n =? -1)%Z then len
  else if (0 <=? n)%Z then Nat.min len (Z.to_nat n)
  else (len - Z.to_nat (- n))%nat.

(** The arithmetic mean of a sequence: its sum over its length. *)
Definition arith_mean (l : list Q) : Q :=
  fold_right Qplus 0 l / inject_Z (Z.of_nat (List.length l)).

(** The [k]-th column of a list of rows. *)
Definition column (k : nat) (rows : list (list Q)) : list Q :=
  map (fun r => nth k r 0) rows.

(** The same in any number type. *)
Definition column_of {F : Type} (zero : F) (k : nat) (rows : list (list F)) : list F :=
  map (fun r => nth k r zero) rows.

(** The sum of a sequence taken from the left, starting at [zero]. *)
Definition sum_in_order {F : Type} (zero : F) (add : F -> F -> F) (l : list F) : F :=
  fold_left add l zero.

(** A name that a glob pattern takes literally: it holds none of the
    characters [*], [?], [[] that pathlib gives a meaning of their own, and no
    separator. *)
Definition plain_pattern (s : string) : bool :=
  negb (Str.contains "*" s || Str.contains "?" s || Str.contains "[" s
        || Str.contains "/" s).

(** The text a model goes by in the legend (line 140). *)
Definition legend_label (name_of_model : string) : string :=
  match od_get name_of_model model_name_mapper with
  | Some l => l
  | None => name_of_model
  end.

(** The model names whose legend label has the empty text for a color in
    [color_style_mapper]: the two CDNet-ResNet-34 models, and a model that
    goes by one of their labels itself. *)
Definition colorless_models : list string :=
  ["sbd_cdnet_resnet34_CDNet"; "cocolvis_cdnet_resnet34_CDNet";
   "CDNet-ResNet-34 (SBD)"; "CDNet-ResNet-34 (C+L)"].

(** [s] occurs in [t]. *)
Definition occurs_in (s t : string) : Prop :=
  exists a b : string, t = (a ++ s ++ b)%string.

Definition path_le (p q : path) : Prop := path_leb p q = true.

(** The source files that pass both filters of the resolver. *)
Definition passes_filters (args : Args) (file : path) : bool :=
  match mode args with
  | Some modes => stem_has_any modes file
  | None => true
  end && stem_has_any (datasets args) file.

(** The plots of dataset [ds] in directory [plots] all carry a three-digit
    index below 999. *)
Definition canonical_plots (root : node) (plots : path) (ds : string) : Prop :=
  forall nm,
    In nm (scandir root plots) ->
    fnmatch (ds ++ "_") ".png" nm = true ->
    exists i, (i < 999)%nat /\ nm = target_name ds (Z.of_nat i).

(** An [--exp-models] entry of the form [path:prefix]. *)
Definition path_colon_prefix (entry rel_exp_path checkpoint_prefix : string) : Prop :=
  Str.split ":" entry = [rel_exp_path; checkpoint_prefix].

(** The two glob patterns an entry [path:prefix] gives rise to, the stem of
    the experiment path and the checkpoint prefix, each followed by a star,
    are taken literally. *)
Definition plain_entry (cfg : Cfg) (rel_exp_path checkpoint_prefix : string) : Prop :=
  plain_pattern (stem (exp_path_prefix cfg rel_exp_path)) = true
  /\ plain_pattern checkpoint_prefix = true.

Definition invalid_experiment : exn := AssertionError "Invalid experiment path.".

(** What [f'{i:03d}'] is for the thousand indices below 1000, checked on
    each of them: three characters, none an underscore, read back by [int]. *)
Definition index_roundtrips (i : nat) : bool :=
  let text := format_03d (Z.of_nat i) in
  match int text with
  | Ok z => (z =? Z.of_nat i)%Z
  | Err _ => false
  end
  && Nat.eqb (String.length text) 3
  && match Str.split "_" text with
     | [w] => String.eqb w text
     | _ => false
     end.

Definition index_precedes_next (i : nat) : bool :=
  match String.compare (format_03d (Z.of_nat i) ++ ".png")
                       (format_03d (Z.of_nat (S i)) ++ ".png") with
  | Lt => true
  | _ => false
  end.

(** ** Further vocabulary *)

(** The parts of a path below the root of the tree. *)
Definition anchorless (p : path) : path :=
  if is_absolute p then tl p else p.

(** What the system holds at [p] is a plain file. *)
Definition is_file (root : node) (p : path) : Prop :=
  exists c, resolve root p = Some (File c).

(** The mean of each pair of neighbours of a sequence. *)
Definition half_sums (y : list Q) : list Q :=
  zip_with (fun a b => (a + b) / 2) (tl y) (removelast y).

(** How often a character occurs in a string. *)
Fixpoint count_char (c : ascii) (s : string) : nat :=
  match s with
  | EmptyString => 0
  | String a s' => (if Ascii.eqb a c then 1 else 0) + count_char c s'
  end.

(** A decimal numeral with [k] more leading zeros. *)
Fixpoint pad_zeros (k : nat) (d : Decimal.uint) : Decimal.uint :=
  match k with
  | O => d
  | S k' => Decimal.D0 (pad_zeros k' d)
  end.

(** ** Further sample data *)

Module More.

Definition stale_agg : aggregated :=
  [("GrabCut", [("RITM-HRNet18_NoBRS", Vec [1; 1; 1]); ("other", Vec [1 # 2])]);
   ("SBD", [("RITM-HRNet18_NoBRS", Vec [1 # 3])])].

Definition unreadable : node :=
  Dir [("res", Dir [("GrabCut_NoBRS.pickle", File (Pickle Sample.grabcut));
                    ("GrabCut_broken.pickle", File Blob);
                    ("GrabCut_last.pickle", File (Pickle Sample.berkeley))]);
       ("out", Dir [])].

Definition grabcut_again : container :=
  {| dataset_name := "GrabCut"; model_name := "RITM-HRNet18_NoBRS";
     all_ious := [[1; 1]; [1 # 2; 1]] |}.

(** [[0.1, 0.7], [0.2, 0.7]] *)
Definition tenths : Generic.container F64.t :=
  {| Generic.dataset_name := "GrabCut"; Generic.model_name := "RITM-HRNet18_NoBRS";
     Generic.all_ious := [[F64.ratio 1 10; F64.ratio 7 10];
                          [F64.ratio 2 10; F64.ratio 7 10]] |}.

Definition twice : world :=
  {| fs := Dir [("res", Dir [("a_GrabCut.pickle", File (Pickle Sample.grabcut));
                             ("b_GrabCut.pickle", File (Pickle grabcut_again))])];
     opened := []; saved := [] |}.

End More.

(** * Properties *)

(** ** Truncation *)

Lemma slice_to_nonneg {A : Type} (n : Z) (x : list A) :
  (0 <= n)%Z -> slice_to n x = firstn (Z.to_nat n) x.
Proof.
  intros Hn. unfold slice_to.
  destruct (Z.ltb_spec n 0) as [Hlt | _]; [lia | reflexivity].
Qed.

Lemma slice_to_negative {A : Type} (n : Z) (x : list A) :
  (n < 0)%Z -> slice_to n x = firstn (List.length x - Z.to_nat (- n)) x.
Proof.
  intros Hn. unfold slice_to.
  destruct (Z.ltb_spec n 0) as [_ | Hge]; [| lia].
  f_equal. lia.
Qed.

Lemma truncate_ious_unbounded (x : list Q) : truncate_ious (-1) x = x.
Proof. reflexivity. Qed.

Lemma truncate_ious_slice (n : Z) (x : list Q) :
  n <> (-1)%Z -> truncate_ious n x = slice_to n x.
Proof.
  intros Hn. unfold truncate_ious.
  destruct (Z.eqb_spec n (-1)) as [E | _]; [contradiction | reflexivity].
Qed.

Lemma truncate_ious_length (n : Z) (x : list Q) :
  List.length (truncate_ious n x) = truncated_length n (List.length x).
Proof.
  unfold truncated_length, truncate_ious.
  destruct (Z.eqb_spec n (-1)) as [E | NE]; [reflexivity |].
  destruct (Z.leb_spec 0 n) as [Hge | Hlt].
  - rewrite slice_to_nonneg by assumption. rewrite length_firstn. lia.
  - rewrite slice_to_negative by assumption. rewrite length_firstn. lia.
Qed.

(** ** Averaging *)

Lemma zip_with_length {A B C : Type} (f : A -> B -> C) (l : list A) (m : list B) :
  List.length (zip_with f l m) = Nat.min (List.length l) (List.length m).
Proof.
  revert m. induction l as [| a l IH]; intros [| b m]; simpl; auto.
Qed.

Lemma zip_with_nth {A B C : Type} (f : A -> B -> C) (l : list A) (m : list B)
    (k : nat) (da : A) (db : B) (dc : C) :
  (k < List.length l)%nat -> (k < List.length m)%nat ->
  nth k (zip_with f l m) dc = f (nth k l da) (nth k m db).
Proof.
  revert m k. induction l as [| a l IH]; intros [| b m] k Hl Hm; simpl in *; try lia.
  destruct k as [| k]; [reflexivity |]. apply IH; lia.
Qed.

Lemma rows_sum_length (rs : list (list Q)) (r : list Q) :
  Forall (fun x => List.length x = List.length r) rs ->
  List.length (fold_left (zip_with Qplus) rs r) = List.length r.
Proof.
  revert r. induction rs as [| r' rs IH]; intros r H; simpl; [reflexivity |].
  inversion H as [| ? ? Hr' Hrs]; subst.
  assert (E : List.length (zip_with Qplus r r') = List.length r).
  { rewrite zip_with_length, Hr'. apply Nat.min_id. }
  rewrite IH; [exact E |].
  rewrite E. exact Hrs.
Qed.

Lemma rows_sum_nth (rs : list (list Q)) (r : list Q) (k : nat) :
  Forall (fun x => List.length x = List.length r) rs ->
  (k < List.length r)%nat ->
  nth k (fold_left (zip_with Qplus) rs r) 0
  = fold_left Qplus (column k rs) (nth k r 0).
Proof.
  revert r. induction rs as [| r' rs IH]; intros r H Hk; simpl; [reflexivity |].
  inversion H as [| ? ? Hr' Hrs]; subst.
  assert (E : List.length (zip_with Qplus r r') = List.length r).
  { rewrite zip_with_length, Hr'. apply Nat.min_id. }
  rewrite IH.
  - f_equal. apply zip_with_nth; lia.
  - rewrite E. exact Hrs.
  - rewrite E. exact Hk.
Qed.

Lemma fold_left_Qplus_acc (l : list Q) (a : Q) :
  fold_left Qplus l a == a + fold_right Qplus 0 l.
Proof.
  revert a. induction l as [| b l IH]; intros a; simpl.
  - ring.
  - rewrite IH. ring.
Qed.

Lemma forallb_length_eq (rs : list (list Q)) (n : nat) :
  Forall (fun x => List.length x = n) rs ->
  forallb (fun x => Nat.eqb (List.length x) n) rs = true.
Proof.
  intros H. apply forallb_forall. intros x Hx.
  rewrite Forall_forall in H. apply Nat.eqb_eq. auto.
Qed.

(** [np.array(rows).mean(0)] on a non-empty rectangle. *)
Lemma np_mean0_rectangle (rows : list (list Q)) (N : nat) :
  rows <> [] ->
  Forall (fun x => List.length x = N) rows ->
  exists v, np_mean0 rows = Ok (Vec v)
            /\ List.length v = N
            /\ forall k, (k < N)%nat -> nth k v 0 == arith_mean (column k rows).
Proof.
  intros Hne Hall. destruct rows as [| r rs]; [congruence |].
  inversion Hall as [| ? ? Hr Hrs]; subst.
  unfold np_mean0. rewrite forallb_length_eq by exact Hrs.
  eexists. split; [reflexivity |]. split.
  - rewrite length_map. apply rows_sum_length. exact Hrs.
  - intros k Hk.
    set (M := inject_Z (Z.of_nat (List.length (r :: rs)))).
    rewrite (nth_indep _ 0 (0 / M)) by (rewrite length_map, rows_sum_length; assumption).
    rewrite (map_nth (fun s => s / M)).
    rewrite rows_sum_nth by assumption.
    unfold arith_mean, column. rewrite length_map. fold M. simpl fold_right.
    fold (column k rs). rewrite fold_left_Qplus_acc. reflexivity.
Qed.

Lemma od_get_set_same {V : Type} (k : string) (v : V) (d : odict V) :
  od_get k (od_set k v d) = Some v.
Proof.
  induction d as [| [k' v'] d IH]; simpl.
  - rewrite String.eqb_refl. reflexivity.
  - destruct (String.eqb_spec k k') as [E | NE]; simpl.
    + rewrite String.eqb_refl. reflexivity.
    + destruct (String.eqb_spec k k'); [contradiction | exact IH].
Qed.

Lemma agg_get_set_same (ds model : string) (value : ndarray) (agg : aggregated) :
  agg_get ds model (agg_set ds model value agg) = Some value.
Proof.
  unfold agg_get, agg_set. rewrite od_get_set_same. apply od_get_set_same.
Qed.

Lemma forallb_same_length {A : Type} (rs : list (list A)) (n : nat) :
  Forall (fun x => List.length x = n) rs ->
  forallb (fun x => Nat.eqb (List.length x) n) rs = true.
Proof.
  intros H. apply forallb_forall. intros x Hx.
  rewrite Forall_forall in H. apply Nat.eqb_eq. auto.
Qed.

Section AnyArithmeticFacts.
Context {F : Type}.
Variable zero : F.
Variable add : F -> F -> F.
Variable over : F -> nat -> F.

Lemma add_rows_length (rs : list (list F)) (r : list F) :
  Forall (fun x => List.length x = List.length r) rs ->
  List.length (fold_left (zip_with add) rs r) = List.length r.
Proof.
  revert r. induction rs as [| r' rs IH]; intros r H; simpl; [reflexivity |].
  inversion H as [| ? ? Hr' Hrs]; subst.
  assert (E : List.length (zip_with add r r') = List.length r).
  { rewrite zip_with_length, Hr'. apply Nat.min_id. }
  rewrite IH; [exact E |].
  rewrite E. exact Hrs.
Qed.

Lemma add_rows_nth (rs : list (list F)) (r : list F) (k : nat) :
  Forall (fun x => List.length x = List.length r) rs ->
  (k < List.length r)%nat ->
  nth k (fold_left (zip_with add) rs r) zero
  = fold_left add (column_of zero k rs) (nth k r zero).
Proof.
  revert r. induction rs as [| r' rs IH]; intros r H Hk; simpl; [reflexivity |].
  inversion H as [| ? ? Hr' Hrs]; subst.
  assert (E : List.length (zip_with add r r') = List.length r).
  { rewrite zip_with_length, Hr'. apply Nat.min_id. }
  rewrite IH.
  - f_equal. apply zip_with_nth; lia.
  - rewrite E. exact Hrs.
  - rewrite E. exact Hk.
Qed.

(** [np.array(rows).mean(0)] on a non-empty rectangle, whatever the numbers:
    every column is summed from [zero] on in the order of the rows, and the
    sum is divided by the number of rows. *)
Lemma mean0_rectangle (rows : list (list F)) (N : nat) :
  rows <> [] ->
  Forall (fun x => List.length x = N) rows ->
  exists v, Generic.np_mean0 zero add over rows = Ok (Some v)
            /\ List.length v = N
            /\ forall k, (k < N)%nat ->
                 nth k v zero
                 = over (sum_in_order zero add (column_of zero k rows)) (List.length rows).
Proof.
  intros Hne Hall. destruct rows as [| r rs]; [congruence |].
  inversion Hall as [| ? ? Hr Hrs]; subst.
  unfold Generic.np_mean0. rewrite forallb_same_length by exact Hrs.
  set (rows := r :: rs).
  assert (Hrows : Forall (fun x => List.length x
                                   = List.length (repeat zero (List.length r))) rows).
  { rewrite repeat_length. exact Hall. }
  eexists. split; [reflexivity |]. split.
  - rewrite length_map, add_rows_length by exact Hrows. apply repeat_length.
  - intros k Hk.
    rewrite (nth_indep _ zero (over zero (List.length rows)))
      by (rewrite length_map, add_rows_length, repeat_length; assumption).
    rewrite (map_nth (fun s => over s (List.length rows))).
    rewrite add_rows_nth by (rewrite ?repeat_length; assumption).
    rewrite nth_repeat. reflexivity.
Qed.

Lemma generic_get_set_same {V : Type} (ds model : string) (value : V)
    (agg : odict (odict V)) :
  Generic.agg_get ds model
    (od_set ds (od_set model value match od_get ds agg with
                                   | Some d => d
                                   | None => []
                                   end) agg)
  = Some value.
Proof.
  unfold Generic.agg_get. rewrite od_get_set_same. apply od_get_set_same.
Qed.

End AnyArithmeticFacts.

(** In exact arithmetic the two readings of line 118 agree: the sum from
    zero on is the sum from the first row on, and the quotient is the
    arithmetic mean. *)
Lemma mean0_exact (rows : list (list Q)) (N : nat) :
  rows <> [] ->
  Forall (fun x => List.length x = N) rows ->
  exists v w,
    np_mean0 rows = Ok (Vec v)
    /\ Generic.np_mean0 0 Qplus (fun s m => s / inject_Z (Z.of_nat m)) rows = Ok (Some w)
    /\ List.length v = N /\ List.length w = N
    /\ forall k, (k < N)%nat -> nth k v 0 == nth k w 0.
Proof.
  intros Hne Hall.
  destruct (np_mean0_rectangle rows N Hne Hall) as (v & Hv & Hlv & Hcv).
  destruct (mean0_rectangle 0 Qplus (fun s m => s / inject_Z (Z.of_nat m)) rows N Hne Hall)
    as (w & Hw & Hlw & Hcw).
  exists v, w. repeat (split; [assumption |]).
  intros k Hk. rewrite (Hcv k Hk), (Hcw k Hk).
  unfold sum_in_order, arith_mean, column_of, column.
  rewrite fold_left_Qplus_acc, length_map, Qplus_0_l. reflexivity.
Qed.

(** C1, as the machine has it. For a result container of [float64] sequences,
    at least one and, once truncated, all of length [N], the aggregator
    stores under (dataset name, model name) a sequence of length [N]; for
    [N >= 2] its [k]-th entry is the binary64 quotient, by the number of
    sequences, of the binary64 sum of their [k]-th entries, taken from [0.0]
    on in the order of the container: the arithmetic mean up to the rounding
    of each addition and of the division. *)
Theorem aggregator_stores_column_means
    (n : Z) (data : Generic.container F64.t)
    (agg : odict (odict (option (list F64.t)))) (N : nat) :
  Generic.all_ious data <> [] ->
  Forall (fun x => List.length (Generic.truncate_ious n x) = N) (Generic.all_ious data) ->
  exists agg' v,
    F64.aggregate_one n data agg = Ok agg'
    /\ Generic.agg_get (Generic.dataset_name data) (Generic.model_name data) agg'
       = Some (Some v)
    /\ List.length v = N
    /\ ((2 <= N)%nat ->
        forall k, (k < N)%nat ->
          nth k v F64.zero
          = F64.over
              (sum_in_order F64.zero PrimFloat.add
                 (column_of F64.zero k
                    (map (Generic.truncate_ious n) (Generic.all_ious data))))
              (List.length (Generic.all_ious data))).
Proof.
  intros Hne Hall.
  destruct (mean0_rectangle F64.zero PrimFloat.add F64.over
              (map (Generic.truncate_ious n) (Generic.all_ious data)) N)
    as (v & Hmean & Hlen & Hcol).
  - intros E. apply map_eq_nil in E. contradiction.
  - rewrite Forall_map. exact Hall.
  - eexists. exists v. split.
    + unfold F64.aggregate_one, Generic.aggregate_one. rewrite Hmean. reflexivity.
    + split; [apply generic_get_set_same |]. split; [exact Hlen |].
      intros _ k Hk. rewrite (Hcol k Hk), length_map. reflexivity.
Qed.

Lemma aggregator_stores_column_means_witness :
  exists agg' v,
    F64.aggregate_one (-1) More.tenths [] = Ok agg'
    /\ Generic.agg_get "GrabCut" "RITM-HRNet18_NoBRS" agg' = Some (Some v)
    /\ List.length v = 2%nat
    /\ ((2 <= 2)%nat ->
        forall k, (k < 2)%nat ->
          nth k v F64.zero
          = F64.over
              (sum_in_order F64.zero PrimFloat.add
                 (column_of F64.zero k
                    (map (Generic.truncate_ious (-1)) (Generic.all_ious More.tenths))))
              (List.length (Generic.all_ious More.tenths))).
Proof.
  apply (aggregator_stores_column_means (-1) More.tenths [] 2).
  - simpl. discriminate.
  - simpl. repeat constructor.
Defined.

(** C1 as stated fails on the machine's numbers: for the two sequences
    [[0.1, 0.7]] and [[0.2, 0.7]] the first entry stored is
    0.15000000000000002, which is not the arithmetic mean of the numbers 0.1
    and 0.2 stand for. *)
Lemma stored_mean_is_rounded :
  exists agg' v first a b,
    F64.aggregate_one (-1) More.tenths [] = Ok agg'
    /\ Generic.agg_get "GrabCut" "RITM-HRNet18_NoBRS" agg' = Some (Some v)
    /\ F64.exact (nth 0 v F64.zero) = Some first
    /\ F64.exact (F64.ratio 1 10) = Some a
    /\ F64.exact (F64.ratio 2 10) = Some b
    /\ ~ first == arith_mean [a; b].
Proof.
  do 5 eexists.
  split; [vm_compute; reflexivity |].
  split; [vm_compute; reflexivity |].
  split; [vm_compute; reflexivity |].
  split; [vm_compute; reflexivity |].
  split; [vm_compute; reflexivity |].
  vm_compute. discriminate.
Qed.

(** C3, as the code has it. A positive cap keeps the first [cap] entries and
    the sentinel [-1] keeps the sequence whole; a cap of 0 empties it and a cap
    below [-1] drops the last [|cap|] entries.  So for per-image sequences of
    common length [L] the aggregated sequence has length [min L cap] for a
    positive cap and [L] for [-1]. *)
Theorem truncation_by_click_cap (n : Z) (rows : list (list Q)) (L : nat) :
  rows <> [] ->
  Forall (fun x => List.length x = L) rows ->
  (forall x : list Q,
      ((0 < n)%Z -> truncate_ious n x = firstn (Z.to_nat n) x)
      /\ (n = (-1)%Z -> truncate_ious n x = x)
      /\ (n = 0%Z -> truncate_ious n x = [])
      /\ ((n < -1)%Z -> truncate_ious n x = firstn (List.length x - Z.to_nat (- n)) x))
  /\ exists v,
      np_mean0 (map (truncate_ious n) rows) = Ok (Vec v)
      /\ List.length v = truncated_length n L
      /\ ((0 < n)%Z -> List.length v = Nat.min L (Z.to_nat n))
      /\ (n = (-1)%Z -> List.length v = L).
Proof.
  intros Hne Hall. split.
  - intros x. repeat split; intros Hn.
    + rewrite truncate_ious_slice by lia. apply slice_to_nonneg. lia.
    + subst n. reflexivity.
    + subst n. reflexivity.
    + rewrite truncate_ious_slice by lia. apply slice_to_negative. lia.
  - destruct (np_mean0_rectangle (map (truncate_ious n) rows) (truncated_length n L))
      as (v & Hmean & Hlen & _).
    + intros E. apply map_eq_nil in E. contradiction.
    + rewrite Forall_map. rewrite Forall_forall in *. intros x Hx.
      rewrite truncate_ious_length, (Hall x Hx). reflexivity.
    + exists v. split; [exact Hmean |]. split; [exact Hlen |].
      unfold truncated_length in Hlen. split; intros Hn.
      * destruct (Z.eqb_spec n (-1)); [lia |].
        destruct (Z.leb_spec 0 n); [exact Hlen | lia].
      * subst n. exact Hlen.
Qed.

Lemma truncation_by_click_cap_witness :
  truncate_ious 2 [1 # 2; 3 # 4; 1] = [1 # 2; 3 # 4]
  /\ exists v, np_mean0 (map (truncate_ious 2) Sample.ious_a) = Ok (Vec v)
               /\ List.length v = 2%nat.
Proof.
  destruct (truncation_by_click_cap 2 Sample.ious_a 3) as [Hcut (v & Hmean & _ & Hlen & _)].
  - simpl. discriminate.
  - simpl. repeat constructor.
  - split.
    + apply (Hcut [1 # 2; 3 # 4; 1]). reflexivity.
    + exists v. split; [exact Hmean | apply Hlen; reflexivity].
Defined.

(** C3 as stated fails: a cap of 0 is not positive, yet the sequence is not
    kept whole. *)
Lemma truncation_cap_zero_not_whole :
  truncate_ious 0 [1 # 2; 3 # 4] = [] /\ truncate_ious 0 [1 # 2; 3 # 4] <> [1 # 2; 3 # 4].
Proof. split; [reflexivity | discriminate]. Qed.

(** A cap below [-1] is not positive either, and drops the tail. *)
Lemma truncation_cap_minus_two :
  truncate_ious (-2) [1 # 2; 3 # 4; 1] = [1 # 2].
Proof. reflexivity. Qed.

(** C4, as the code has it: for a cap of at least [-1], truncating twice is
    truncating once, and the second truncation of the pipeline, on the
    averaged sequence, changes nothing. *)
Theorem truncation_idempotent (C : Z) (s : list Q) :
  (-1 <= C)%Z ->
  truncate_ious C (truncate_ious C s) = truncate_ious C s
  /\ forall rows v,
       np_mean0 (map (truncate_ious C) rows) = Ok (Vec v) ->
       truncate_results C (Vec v) = Ok (Vec v).
Proof.
  intros HC. split.
  - unfold truncate_ious. destruct (Z.eqb_spec C (-1)) as [E | NE]; [reflexivity |].
    rewrite !slice_to_nonneg by lia.
    rewrite firstn_firstn. f_equal. lia.
  - intros rows v Hmean. unfold truncate_results.
    destruct (Z.eqb_spec C (-1)) as [E | NE]; [reflexivity |]. simpl.
    destruct rows as [| r rs]; [discriminate |]. simpl in Hmean.
    destruct (forallb _ _) eqn:Hrect in Hmean; [| discriminate].
    injection Hmean as <-.
    rewrite slice_to_nonneg by lia.
    rewrite firstn_all2; [reflexivity |].
    rewrite length_map, rows_sum_length.
    + rewrite truncate_ious_length. unfold truncated_length.
      destruct (Z.eqb_spec C (-1)); [contradiction |].
      destruct (Z.leb_spec 0 C); lia.
    + apply Forall_forall. intros x Hx.
      rewrite forallb_forall in Hrect. apply Nat.eqb_eq. auto.
Qed.

Lemma truncation_idempotent_witness :
  truncate_ious 2 (truncate_ious 2 [1 # 2; 3 # 4; 1]) = truncate_ious 2 [1 # 2; 3 # 4; 1].
Proof.
  apply (truncation_idempotent 2 [1 # 2; 3 # 4; 1]). lia.
Defined.

(** C4 as stated fails for a cap below [-1]: each pass drops two more. *)
Lemma truncation_twice_differs :
  truncate_ious (-2) (truncate_ious (-2) [1 # 2; 3 # 4; 1]) = []
  /\ truncate_ious (-2) [1 # 2; 3 # 4; 1] = [1 # 2]
  /\ truncate_ious (-2) (truncate_ious (-2) [1 # 2; 3 # 4; 1])
     <> truncate_ious (-2) [1 # 2; 3 # 4; 1].
Proof. split; [reflexivity | split; [reflexivity | discriminate]]. Qed.

(** ** Area under the curve *)

Lemma tl_map {A B : Type} (f : A -> B) (l : list A) : tl (map f l) = map f (tl l).
Proof. destruct l; reflexivity. Qed.

Lemma removelast_map {A B : Type} (f : A -> B) (l : list A) :
  removelast (map f l) = map f (removelast l).
Proof.
  induction l as [| a [| b l] IH]; try reflexivity.
  change (f a :: removelast (map f (b :: l)) = f a :: map f (removelast (b :: l))).
  rewrite IH. reflexivity.
Qed.

Lemma removelast_seq (n start : nat) : removelast (seq start (S n)) = seq start n.
Proof.
  revert start. induction n as [| n IH]; intros start; [reflexivity |].
  change (start :: removelast (seq (S start) (S n)) = start :: seq (S start) n).
  rewrite IH. reflexivity.
Qed.

Lemma removelast_repeat {A : Type} (a : A) (n : nat) :
  removelast (repeat a (S n)) = repeat a n.
Proof.
  induction n as [| n IH]; [reflexivity |].
  change (a :: removelast (repeat a (S n)) = a :: repeat a n).
  rewrite IH. reflexivity.
Qed.

Lemma zip_with_map {A B C D E : Type} (f : C -> D -> E) (g : A -> C) (h : B -> D)
    (l : list A) (m : list B) :
  zip_with f (map g l) (map h m) = zip_with (fun a b => f (g a) (h b)) l m.
Proof.
  revert m. induction l as [| a l IH]; intros [| b m]; simpl; try reflexivity.
  rewrite IH. reflexivity.
Qed.

Lemma zip_with_Forall {A B C : Type} (f : A -> B -> C) (P : C -> Prop)
    (l : list A) (m : list B) :
  (forall a b, In a l -> In b m -> P (f a b)) -> Forall P (zip_with f l m).
Proof.
  revert m. induction l as [| a l IH]; intros [| b m] H; simpl; constructor.
  - apply H; left; reflexivity.
  - apply IH. intros; apply H; right; assumption.
Qed.

(** Consecutive clicks are one apart. *)
Lemma np_diff_clicks (n : nat) :
  Forall (fun d => d == 1) (np_diff (one_plus_arange n))
  /\ List.length (np_diff (one_plus_arange n)) = (n - 1)%nat.
Proof.
  unfold np_diff, one_plus_arange.
  rewrite tl_map, removelast_map, zip_with_map.
  destruct n as [| n].
  - split; [constructor | reflexivity].
  - rewrite removelast_seq. change (tl (seq 0 (S n))) with (seq 1 n). split.
    + assert (G : forall k s, Forall (fun d => d == 1)
                (zip_with (fun a b => 1 + inject_Z (Z.of_nat a) - (1 + inject_Z (Z.of_nat b)))
                          (seq (S s) k) (seq s k))).
      { induction k as [| k IH]; intros s; cbn [seq zip_with]; constructor; [| apply IH].
        rewrite Nat2Z.inj_succ. unfold Z.succ. rewrite inject_Z_plus. ring. }
      apply G.
    + rewrite zip_with_length, !length_seq. lia.
Qed.

Lemma Qsum_all_ones (l : list Q) :
  Forall (fun t => t == 1) l -> Qsum l == inject_Z (Z.of_nat (List.length l)).
Proof.
  intros H. unfold Qsum. rewrite fold_left_Qplus_acc.
  induction H as [| t l Ht _ IH]; simpl List.length; simpl fold_right.
  - reflexivity.
  - rewrite Nat2Z.inj_succ. unfold Z.succ. rewrite inject_Z_plus.
    rewrite Ht. rewrite <- IH. ring.
Qed.

(** The area under the constant 1 over [x = 1..n] is [n - 1]. *)
Lemma trapz_ones (n : nat) :
  trapz (ones n) (one_plus_arange n) == inject_Z (Z.of_nat (n - 1)).
Proof.
  unfold trapz.
  assert (Hs : zip_with Qplus (tl (ones n)) (removelast (ones n)) = repeat (1 + 1) (n - 1)).
  { unfold ones. destruct n as [| n]; [reflexivity |].
    rewrite removelast_repeat. simpl tl. replace (S n - 1)%nat with n by lia.
    induction n as [| n IH]; [reflexivity |]. simpl. rewrite IH. reflexivity. }
  destruct (np_diff_clicks n) as [Hd Hlen].
  rewrite Hs.
  rewrite Qsum_all_ones.
  - rewrite zip_with_length, Hlen, repeat_length, Nat.min_id. reflexivity.
  - apply zip_with_Forall. intros d s Hin Hs'.
    apply repeat_spec in Hs'. subst s.
    rewrite Forall_forall in Hd. rewrite (Hd d Hin). field.
Qed.

Lemma auc_clicks (n : nat) (y : list Q) :
  List.length y = n -> (2 <= n)%nat ->
  auc (one_plus_arange n) y = Ok (1 * trapz y (one_plus_arange n)).
Proof.
  intros Hy Hn. unfold auc.
  assert (Hx : List.length (one_plus_arange n) = n).
  { unfold one_plus_arange. rewrite length_map, length_seq. reflexivity. }
  rewrite Hx, Hy, Nat.eqb_refl. simpl negb. cbv iota.
  destruct (Nat.ltb_spec n 2) as [Hlt | _]; [lia |].
  destruct (np_diff_clicks n) as [Hd _].
  assert (Hneg : existsb (fun d => Qlt_bool d 0) (np_diff (one_plus_arange n)) = false).
  { apply not_true_is_false. intros Hex. apply existsb_exists in Hex.
    destruct Hex as (d & Hin & Hlt). rewrite Forall_forall in Hd.
    unfold Qlt_bool in Hlt. apply negb_true_iff in Hlt.
    assert (Hle : Qle_bool 0 d = true).
    { apply Qle_bool_iff. rewrite (Hd d Hin). discriminate. }
    congruence. }
  rewrite Hneg. reflexivity.
Qed.

Lemma truncate_results_vec (n : Z) (v : list Q) :
  truncate_results n (Vec v) = Ok (Vec (truncate_ious n v)).
Proof.
  unfold truncate_results, truncate_ious. destruct (n =? -1)%Z; reflexivity.
Qed.

Lemma one_plus_arange_length (n : nat) : List.length (one_plus_arange n) = n.
Proof. unfold one_plus_arange. rewrite length_map, length_seq. reflexivity. Qed.

Lemma normalized_auc_two (y : list Q) :
  (2 <= List.length y)%nat ->
  normalized_auc y
  = Ok (1 * trapz y (one_plus_arange (List.length y))
        / (1 * trapz (ones (List.length y)) (one_plus_arange (List.length y)))).
Proof.
  intros Hy. unfold normalized_auc.
  rewrite (auc_clicks _ (ones _)) by (unfold ones; rewrite ?repeat_length; auto).
  rewrite (auc_clicks _ y) by auto. reflexivity.
Qed.

Lemma normalized_auc_short (y : list Q) :
  (List.length y < 2)%nat -> exists msg, normalized_auc y = Err (ValueError msg).
Proof.
  intros Hy. unfold normalized_auc, auc.
  rewrite one_plus_arange_length. unfold ones. rewrite repeat_length, Nat.eqb_refl.
  simpl negb. cbv iota.
  destruct (Nat.ltb_spec (List.length y) 2) as [_ | Hge]; [| lia].
  simpl. eexists. reflexivity.
Qed.

Lemma removelast_length {A : Type} (l : list A) :
  List.length (removelast l) = (List.length l - 1)%nat.
Proof.
  induction l as [| a [| b l] IH]; try reflexivity.
  change (S (List.length (removelast (b :: l))) = (List.length (a :: b :: l) - 1)%nat).
  rewrite IH. simpl. lia.
Qed.

Lemma tl_length {A : Type} (l : list A) : List.length (tl l) = (List.length l - 1)%nat.
Proof. destruct l; simpl; lia. Qed.

Lemma map_zip_with {A B C D : Type} (g : C -> D) (f : A -> B -> C)
    (l : list A) (m : list B) :
  map g (zip_with f l m) = zip_with (fun a b => g (f a b)) l m.
Proof.
  revert m. induction l as [| a l IH]; intros [| b m]; simpl; try reflexivity.
  rewrite IH. reflexivity.
Qed.

Lemma unit_steps_sum (dx S : list Q) :
  Forall (fun d => d == 1) dx ->
  List.length dx = List.length S ->
  fold_right Qplus 0 (zip_with (fun d s => d * s / 2) dx S)
  == fold_right Qplus 0 (map (fun s => s / 2) S).
Proof.
  intros Hd. revert S. induction Hd as [| d dx Hd1 _ IH]; intros [| s S] Hlen;
    simpl in *; try discriminate; [reflexivity |].
  rewrite IH by congruence. rewrite Hd1. field.
Qed.

(** Over [x = 1..n] the trapezoidal area is the sum of the means of
    neighbouring values. *)
Lemma trapz_clicks (y : list Q) :
  trapz y (one_plus_arange (List.length y)) == fold_right Qplus 0 (half_sums y).
Proof.
  unfold trapz, Qsum. rewrite fold_left_Qplus_acc, Qplus_0_l.
  destruct (np_diff_clicks (List.length y)) as [Hd Hlen].
  rewrite unit_steps_sum.
  - rewrite map_zip_with. reflexivity.
  - exact Hd.
  - rewrite Hlen, zip_with_length, tl_length, removelast_length. lia.
Qed.

Lemma normalized_auc_mean (y : list Q) :
  (2 <= List.length y)%nat ->
  exists a, normalized_auc y = Ok a
            /\ a == fold_right Qplus 0 (half_sums y)
                    / inject_Z (Z.of_nat (List.length y - 1)).
Proof.
  intros Hy. rewrite normalized_auc_two by exact Hy.
  eexists. split; [reflexivity |].
  rewrite !Qmult_1_l, trapz_ones, trapz_clicks. reflexivity.
Qed.

Lemma half_sums_scale (c : Q) (y : list Q) :
  fold_right Qplus 0 (half_sums (map (fun q => q * c) y))
  == fold_right Qplus 0 (half_sums y) * c.
Proof.
  unfold half_sums. rewrite tl_map, removelast_map, zip_with_map.
  generalize (tl y) (removelast y). intros A.
  induction A as [| a A IH]; intros [| b B]; simpl; try ring.
  rewrite IH. field.
Qed.

(** Which models the plot call of line 151 accepts. *)
Lemma plt_plot_colorless (name_of_model : string) :
  plt_plot (od_get (legend_label name_of_model) color_style_mapper)
  = if existsb (String.eqb name_of_model) colorless_models
    then Err (ValueError "'' is not a valid value for color")
    else Ok tt.
Proof.
  unfold legend_label, model_name_mapper, colorless_models. cbn [od_get existsb].
  repeat match goal with
         | |- context [String.eqb name_of_model ?k] =>
             destruct (String.eqb_spec name_of_model k) as [-> | ?];
             [vm_compute; reflexivity |]
         end.
  unfold color_style_mapper. cbn [od_get].
  repeat match goal with
         | |- context [String.eqb name_of_model ?k] =>
             destruct (String.eqb_spec name_of_model k) as [-> | ?];
             [try contradiction; vm_compute; reflexivity |]
         end.
  reflexivity.
Qed.

Lemma plt_plot_accepts (name_of_model : string) :
  ~ In name_of_model colorless_models ->
  plt_plot (od_get (legend_label name_of_model) color_style_mapper) = Ok tt.
Proof.
  intros Hnot. rewrite plt_plot_colorless.
  destruct (existsb (String.eqb name_of_model) colorless_models) eqn:E; [| reflexivity].
  apply existsb_exists in E. destruct E as (k & Hin & Hk).
  apply String.eqb_eq in Hk. subst k. contradiction.
Qed.

Lemma plt_plot_refuses (name_of_model : string) :
  In name_of_model colorless_models ->
  plt_plot (od_get (legend_label name_of_model) color_style_mapper)
  = Err (ValueError "'' is not a valid value for color").
Proof.
  intros Hin. rewrite plt_plot_colorless.
  destruct (existsb (String.eqb name_of_model) colorless_models) eqn:E; [reflexivity |].
  assert (H : existsb (String.eqb name_of_model) colorless_models = true)
    by (apply existsb_exists; exists name_of_model; split;
        [exact Hin | apply String.eqb_refl]).
  congruence.
Qed.

(** The body of the per-model loop on a sequence of at least two clicks whose
    color the plot call accepts. *)
Lemma model_curve_drawn (n : Z) (name_of_model : string) (v : list Q) :
  (2 <= List.length (truncate_ious n v))%nat ->
  ~ In name_of_model colorless_models ->
  exists c, model_curve n name_of_model (Vec v) = Ok c
            /\ values c = map (fun q => q * 100) (truncate_ious n v)
            /\ normalized_auc (values c) = Ok (auc_normalized c).
Proof.
  intros Hlen Hcolor. unfold model_curve. rewrite truncate_results_vec. cbn [bind].
  set (sv := map (fun q => q * 100) (truncate_ious n v)).
  assert (Hsv : List.length sv = List.length (truncate_ious n v))
    by (unfold sv; apply length_map).
  destruct sv as [| a sv'] eqn:E; [simpl in Hsv; lia |].
  cbn [py_min py_max bind]. rewrite <- E.
  assert (Hlong : (2 <= List.length sv)%nat) by (rewrite E; simpl in *; lia).
  rewrite normalized_auc_two by exact Hlong.
  cbn [bind]. fold (legend_label name_of_model).
  rewrite (plt_plot_accepts _ Hcolor). cbn [bind].
  eexists. split; [reflexivity |]. split; [reflexivity |].
  cbn [values auc_normalized]. apply normalized_auc_two. exact Hlong.
Qed.

Lemma half_sums_ones (n : nat) :
  fold_right Qplus 0 (half_sums (ones n)) == inject_Z (Z.of_nat (n - 1)).
Proof.
  rewrite <- trapz_ones. symmetry.
  rewrite <- (repeat_length 1 n) at 2. apply trapz_clicks.
Qed.

(** C2, as the code has it. For every length [n >= 2] the area under the
    constant 1 over [x = 1..n] is [n - 1], the normalized AUC of a sequence
    is its area divided by that one, and the normalized AUC of the constant
    sequence of ones is 1.  The script applies this to the sequence already
    multiplied by 100, so for an IoU sequence of ones it reports 100. *)
Theorem normalized_auc_of_ones (n : nat) :
  (2 <= n)%nat ->
  (exists total,
     auc (one_plus_arange n) (ones n) = Ok total
     /\ total == inject_Z (Z.of_nat n) - 1
     /\ forall y, List.length y = n ->
          exists area, auc (one_plus_arange n) y = Ok area
                       /\ normalized_auc y = Ok (area / total))
  /\ (exists q, normalized_auc (repeat 1 n) = Ok q /\ q == 1)
  /\ (forall name_of_model,
        ~ In name_of_model colorless_models ->
        exists c, model_curve (-1) name_of_model (Vec (repeat 1 n)) = Ok c
                  /\ auc_normalized c == 100).
Proof.
  intros Hn.
  assert (Hnz : ~ inject_Z (Z.of_nat (n - 1)) == 0).
  { intros E. unfold Qeq in E. simpl in E. lia. }
  split; [| split].
  - eexists. split; [apply auc_clicks; [apply repeat_length | exact Hn] |]. split.
    + rewrite Qmult_1_l, trapz_ones.
      replace (Z.of_nat (n - 1)) with (Z.of_nat n - 1)%Z by lia.
      unfold Zminus. rewrite inject_Z_plus. reflexivity.
    + intros y Hy. eexists. split; [apply auc_clicks; assumption |].
      rewrite normalized_auc_two by lia. rewrite Hy. reflexivity.
  - destruct (normalized_auc_mean (repeat 1 n)) as (q & Hq & Hvq);
      [rewrite repeat_length; exact Hn |].
    exists q. split; [exact Hq |].
    rewrite Hvq, repeat_length. fold (ones n). rewrite half_sums_ones.
    apply Qmult_inv_r. exact Hnz.
  - intros name_of_model Hcolor.
    destruct (model_curve_drawn (-1) name_of_model (repeat 1 n)) as (c & Hc & Hval & Hauc).
    + rewrite truncate_ious_unbounded, repeat_length. exact Hn.
    + exact Hcolor.
    + exists c. split; [exact Hc |].
      rewrite Hval, truncate_ious_unbounded in Hauc.
      destruct (normalized_auc_mean (map (fun q => q * 100) (repeat 1 n)))
        as (a & Ha & Hva); [rewrite length_map, repeat_length; exact Hn |].
      rewrite Ha in Hauc. injection Hauc as <-.
      rewrite Hva, half_sums_scale, length_map, repeat_length.
      fold (ones n). rewrite half_sums_ones. field. exact Hnz.
Qed.

Lemma normalized_auc_of_ones_witness :
  (exists q, normalized_auc (repeat 1 5%nat) = Ok q /\ q == 1)
  /\ exists c, model_curve (-1) "RITM-HRNet18_NoBRS" (Vec (repeat 1 5%nat)) = Ok c
               /\ auc_normalized c == 100.
Proof.
  split.
  - apply (normalized_auc_of_ones 5). lia.
  - apply (normalized_auc_of_ones 5); [lia |].
    simpl. intros [H | [H | [H | [H | []]]]]; discriminate H.
Defined.

(** C2 as stated fails for what the script computes: for an averaged IoU
    sequence of ones the normalized AUC in the legend is 100, not 1. *)
Lemma flat_curve_is_labelled_100 :
  exists c, model_curve (-1) "RITM-HRNet18_NoBRS" (Vec [1; 1; 1]) = Ok c
            /\ label c = "RITM-HRNet18 (SBD)"
            /\ auc_normalized c == 100
            /\ ~ auc_normalized c == 1.
Proof.
  eexists. split; [vm_compute; reflexivity |]. split; [reflexivity |].
  split; vm_compute; [reflexivity | discriminate].
Qed.

(** ** The order on paths *)

Lemma ascii_compare_refl (a : ascii) : Ascii.compare a a = Eq.
Proof. unfold Ascii.compare. apply N.compare_refl. Qed.

Lemma ascii_compare_lt_trans (a b c : ascii) :
  Ascii.compare a b = Lt -> Ascii.compare b c = Lt -> Ascii.compare a c = Lt.
Proof.
  unfold Ascii.compare. rewrite !N.compare_lt_iff. apply N.lt_trans.
Qed.

Lemma string_compare_refl (s : string) : String.compare s s = Eq.
Proof.
  induction s as [| a s IH]; simpl; [reflexivity |].
  rewrite ascii_compare_refl. exact IH.
Qed.

Lemma string_compare_eq (s t : string) : String.compare s t = Eq -> s = t.
Proof. apply String.compare_eq_iff. Qed.

Lemma string_compare_lt_trans (s t u : string) :
  String.compare s t = Lt -> String.compare t u = Lt -> String.compare s u = Lt.
Proof.
  revert t u. induction s as [| a s IH]; intros [| b t] [| c u]; simpl;
    try congruence.
  destruct (Ascii.compare a b) eqn:Hab; try discriminate;
    destruct (Ascii.compare b c) eqn:Hbc; try discriminate; intros Hst Htu.
  - apply Ascii.compare_eq_iff in Hab, Hbc. subst. rewrite ascii_compare_refl.
    eapply IH; eassumption.
  - apply Ascii.compare_eq_iff in Hab. subst. rewrite Hbc. reflexivity.
  - apply Ascii.compare_eq_iff in Hbc. subst. rewrite Hab. reflexivity.
  - rewrite (ascii_compare_lt_trans a b c Hab Hbc). reflexivity.
Qed.

Lemma path_compare_refl (p : path) : path_compare p p = Eq.
Proof.
  induction p as [| a p IH]; simpl; [reflexivity |].
  rewrite string_compare_refl. exact IH.
Qed.

Lemma path_compare_eq (p q : path) : path_compare p q = Eq -> p = q.
Proof.
  revert q. induction p as [| a p IH]; intros [| b q]; simpl; try congruence.
  destruct (String.compare a b) eqn:Hab; try discriminate.
  intros H. apply string_compare_eq in Hab. apply IH in H. congruence.
Qed.

Lemma path_compare_antisym (p q : path) :
  path_compare p q = CompOpp (path_compare q p).
Proof.
  revert q. induction p as [| a p IH]; intros [| b q]; simpl; try reflexivity.
  rewrite (String.compare_antisym b a).
  destruct (String.compare a b); simpl; auto.
Qed.

Lemma path_compare_lt_trans (p q r : path) :
  path_compare p q = Lt -> path_compare q r = Lt -> path_compare p r = Lt.
Proof.
  revert q r. induction p as [| a p IH]; intros [| b q] [| c r]; simpl;
    try congruence.
  destruct (String.compare a b) eqn:Hab; try discriminate;
    destruct (String.compare b c) eqn:Hbc; try discriminate; intros Hpq Hqr.
  - apply string_compare_eq in Hab, Hbc. subst. rewrite string_compare_refl.
    eapply IH; eassumption.
  - apply string_compare_eq in Hab. subst. rewrite Hbc. reflexivity.
  - apply string_compare_eq in Hbc. subst. rewrite Hab. reflexivity.
  - rewrite (string_compare_lt_trans a b c Hab Hbc). reflexivity.
Qed.

Lemma path_leb_refl (p : path) : path_leb p p = true.
Proof. unfold path_leb. rewrite path_compare_refl. reflexivity. Qed.

Lemma path_leb_total (p q : path) : path_leb p q = true \/ path_leb q p = true.
Proof.
  unfold path_leb. rewrite (path_compare_antisym q p).
  destruct (path_compare p q); simpl; auto.
Qed.

Lemma path_leb_trans (p q r : path) :
  path_leb p q = true -> path_leb q r = true -> path_leb p r = true.
Proof.
  unfold path_leb.
  destruct (path_compare p q) eqn:Hpq; try discriminate;
    destruct (path_compare q r) eqn:Hqr; try discriminate; intros _ _.
  - apply path_compare_eq in Hpq, Hqr. subst. rewrite path_compare_refl. reflexivity.
  - apply path_compare_eq in Hpq. subst. rewrite Hqr. reflexivity.
  - apply path_compare_eq in Hqr. subst. rewrite Hpq. reflexivity.
  - rewrite (path_compare_lt_trans p q r Hpq Hqr). reflexivity.
Qed.

Lemma path_leb_antisym (p q : path) :
  path_leb p q = true -> path_leb q p = true -> p = q.
Proof.
  unfold path_leb. rewrite (path_compare_antisym q p).
  destruct (path_compare p q) eqn:Hpq; simpl; try discriminate.
  intros _ _. apply path_compare_eq. exact Hpq.
Qed.

(** ** Sorting *)

Section SortingFacts.
Context {A : Type} (leb : A -> A -> bool).
Hypothesis leb_total : forall a b, leb a b = true \/ leb b a = true.
Hypothesis leb_trans : forall a b c, leb a b = true -> leb b c = true -> leb a c = true.

Let le (a b : A) : Prop := leb a b = true.

Lemma insert_sorted_perm (x : A) (l : list A) :
  Permutation (insert_sorted leb x l) (x :: l).
Proof.
  induction l as [| y l IH]; simpl; [apply Permutation_refl |].
  destruct (leb x y); [apply Permutation_refl |].
  eapply Permutation_trans; [apply perm_skip, IH | apply perm_swap].
Qed.

Lemma sorted_perm (l : list A) : Permutation (sorted leb l) l.
Proof.
  induction l as [| x l IH]; simpl; [constructor |].
  eapply Permutation_trans; [apply insert_sorted_perm | apply perm_skip, IH].
Qed.

Lemma insert_sorted_ordered (x : A) (l : list A) :
  StronglySorted le l -> StronglySorted le (insert_sorted leb x l).
Proof.
  induction 1 as [| y l Hl IH Hy]; simpl.
  - repeat constructor.
  - destruct (leb x y) eqn:Hxy.
    + constructor; [constructor; assumption |].
      constructor; [exact Hxy |].
      eapply Forall_impl; [| exact Hy]. intros z Hz. eapply leb_trans; eassumption.
    + constructor; [exact IH |].
      assert (Hyx : le y x) by (destruct (leb_total x y); [congruence | assumption]).
      eapply Permutation_Forall; [apply Permutation_sym, insert_sorted_perm |].
      constructor; assumption.
Qed.

Lemma sorted_ordered (l : list A) : StronglySorted le (sorted leb l).
Proof.
  induction l as [| x l IH]; simpl; [constructor | apply insert_sorted_ordered, IH].
Qed.

Lemma sorted_in (l : list A) (x : A) : In x (sorted leb l) <-> In x l.
Proof.
  split; apply Permutation_in; [| apply Permutation_sym]; apply sorted_perm.
Qed.

Lemma sorted_nil_inv (l : list A) : sorted leb l = [] -> l = [].
Proof.
  intros H. apply Permutation_nil. rewrite <- H. apply sorted_perm.
Qed.

(** The last element of a sorted list bounds every other one. *)
Lemma strongly_sorted_last (l : list A) (d x : A) :
  (forall a, le a a) ->
  StronglySorted le l -> In x l -> le x (last l d).
Proof.
  intros Hrefl Hs. revert x. induction Hs as [| y l Hl IH Hy]; intros x Hin.
  - destruct Hin.
  - destruct l as [| z l].
    + destruct Hin as [-> | []]. apply Hrefl.
    + change (last (y :: z :: l) d) with (last (z :: l) d).
      destruct Hin as [-> | Hin]; [| apply IH; exact Hin].
      rewrite Forall_forall in Hy. apply Hy.
      destruct (@exists_last _ (z :: l)) as (l' & a & E); [discriminate |].
      rewrite E, last_last. apply in_or_app. right. left. reflexivity.
Qed.
End SortingFacts.

Lemma sorted_paths_ordered (l : list path) : StronglySorted path_le (sorted path_leb l).
Proof. apply sorted_ordered; [apply path_leb_total | apply path_leb_trans]. Qed.

(** ** The input resolver *)

Lemma prefix_spec (s t : string) :
  String.prefix s t = true <-> exists b, t = (s ++ b)%string.
Proof.
  revert t. induction s as [| a s IH]; intros t.
  - split; [intros _; exists t; reflexivity | intros _; destruct t; reflexivity].
  - destruct t as [| c t]; simpl.
    + split; [discriminate | intros [b Hb]; discriminate].
    + destruct (Ascii.ascii_dec a c) as [-> | NE].
      * rewrite IH. split; intros [b Hb]; exists b; congruence.
      * split; [discriminate | intros [b Hb]; congruence].
Qed.

Lemma contains_spec (s t : string) : Str.contains s t = true <-> occurs_in s t.
Proof.
  unfold occurs_in. induction t as [| c t IH]; cbn [Str.contains].
  - rewrite orb_false_r, prefix_spec. split.
    + intros [b Hb]. exists EmptyString, b. exact Hb.
    + intros (a & b & H). destruct a; [exists b; exact H | discriminate].
  - rewrite orb_true_iff, IH, prefix_spec. split.
    + intros [[b Hb] | (a & b & H)].
      * exists EmptyString, b. exact Hb.
      * exists (String c a), b. simpl. rewrite H. reflexivity.
    + intros (a & b & H). destruct a as [| c' a].
      * left. exists b. exact H.
      * right. exists a, b. simpl in H. congruence.
Qed.

Lemma stem_has_any_spec (subs : list string) (file : path) :
  stem_has_any subs file = true <-> exists s, In s subs /\ occurs_in s (stem file).
Proof.
  unfold stem_has_any. rewrite existsb_exists.
  split; intros (s & Hin & H); exists s; (split; [exact Hin | apply contains_spec; exact H]).
Qed.

Lemma filter_twice {A : Type} (f g : A -> bool) (l : list A) :
  filter f (filter g l) = filter (fun x => g x && f x) l.
Proof.
  induction l as [| a l IH]; simpl; [reflexivity |].
  destruct (g a); simpl; [destruct (f a) |]; rewrite IH; reflexivity.
Qed.

(** The resolver, once a source has bound [files_list]: both filters, then
    the sort. *)
Lemma get_files_list_bound (root : node) (args : Args) (cfg : Cfg) (src : list path) :
  resolve_source root args cfg = Ok (Some src) ->
  get_files_list root args cfg
  = Ok (sorted path_leb (filter (passes_filters args) src)).
Proof.
  intros Hsrc. unfold get_files_list, passes_filters. rewrite Hsrc. simpl.
  destruct (mode args) as [modes |]; simpl.
  - rewrite filter_twice. reflexivity.
  - reflexivity.
Qed.

Lemma get_files_list_inv (root : node) (args : Args) (cfg : Cfg) (fl : list path) :
  get_files_list root args cfg = Ok fl ->
  exists src, resolve_source root args cfg = Ok (Some src).
Proof.
  unfold get_files_list. destruct (resolve_source root args cfg) as [[src |] | e]; simpl.
  - intros _. exists src. reflexivity.
  - destruct (mode args); simpl; discriminate.
  - discriminate.
Qed.

(** C10. With none of [--folder], [--files], [--model-dirs] and
    [--exp-models] given, no branch binds the file list and the resolver
    fails with an unbound-local-variable error where the filters read it: it
    returns no list, and no other error. *)
Theorem no_source_is_unbound_local (root : node) (args : Args) (cfg : Cfg) :
  folder args = None -> files args = None ->
  model_dirs args = None -> exp_models args = None ->
  resolve_source root args cfg = Ok None
  /\ get_files_list root args cfg = Err (UnboundLocalError "files_list")
  /\ main root args cfg
     = ({| fs := root; opened := []; saved := [] |}, Err (UnboundLocalError "files_list")).
Proof.
  intros H1 H2 H3 H4.
  assert (Hsrc : resolve_source root args cfg = Ok None).
  { unfold resolve_source. rewrite H1, H2, H3, H4. reflexivity. }
  assert (Hget : get_files_list root args cfg = Err (UnboundLocalError "files_list")).
  { unfold get_files_list. rewrite Hsrc. simpl. destruct (mode args); reflexivity. }
  split; [exact Hsrc |]. split; [exact Hget |].
  unfold main. rewrite Hget. reflexivity.
Qed.

Lemma no_source_is_unbound_local_witness :
  get_files_list Sample.root Sample.args0 Sample.cfg = Err (UnboundLocalError "files_list").
Proof.
  apply (no_source_is_unbound_local Sample.root Sample.args0 Sample.cfg); reflexivity.
Defined.

(** C6, as the code has it. The post-filter keeps exactly the resolved files
    whose stem contains one of the dataset substrings and, when [--mode] was
    given at all, one of its click-modes; without [--mode] the mode filter
    removes nothing. *)
Theorem post_filter_keeps (root : node) (args : Args) (cfg : Cfg) (src : list path) :
  resolve_source root args cfg = Ok (Some src) ->
  exists fl,
    get_files_list root args cfg = Ok fl
    /\ Permutation fl (filter (passes_filters args) src)
    /\ (forall file,
          In file fl <->
          In file src
          /\ (forall modes, mode args = Some modes ->
                exists m, In m modes /\ occurs_in m (stem file))
          /\ (exists d, In d (datasets args) /\ occurs_in d (stem file)))
    /\ (mode args = None ->
        Permutation fl (filter (stem_has_any (datasets args)) src)).
Proof.
  intros Hsrc. eexists. split; [apply get_files_list_bound; exact Hsrc |].
  split; [apply sorted_perm |]. split.
  - intros file.
    rewrite (sorted_in path_leb).
    rewrite filter_In. unfold passes_filters.
    rewrite andb_true_iff, stem_has_any_spec.
    destruct (mode args) as [modes |].
    + rewrite stem_has_any_spec. split.
      * intros (Hin & Hm & Hd). split; [exact Hin |]. split; [| exact Hd].
        intros modes' E. injection E as <-. exact Hm.
      * intros (Hin & Hm & Hd). split; [exact Hin |]. split; [| exact Hd].
        apply Hm. reflexivity.
    + split.
      * intros (Hin & _ & Hd). split; [exact Hin |]. split; [| exact Hd]. discriminate.
      * intros (Hin & _ & Hd). auto.
  - intros Hmode. eapply Permutation_trans; [apply sorted_perm |].
    unfold passes_filters. rewrite Hmode. apply Permutation_refl.
Qed.

Lemma post_filter_keeps_witness :
  exists fl,
    get_files_list Sample.root
      (Sample.with_files ["res/GrabCut_NoBRS.pickle"; "res/notes.txt"]
                         (Some ["NoBRS"]) ["GrabCut"])
      Sample.cfg = Ok fl
    /\ Permutation fl [["res"; "GrabCut_NoBRS.pickle"]].
Proof.
  destruct (post_filter_keeps Sample.root
              (Sample.with_files ["res/GrabCut_NoBRS.pickle"; "res/notes.txt"]
                                 (Some ["NoBRS"]) ["GrabCut"])
              Sample.cfg
              [["res"; "GrabCut_NoBRS.pickle"]; ["res"; "notes.txt"]])
    as (fl & Hget & Hperm & _).
  - reflexivity.
  - exists fl. split; [exact Hget | exact Hperm].
Defined.

(** C6 as stated fails: [--mode] given with no value requests no click-mode,
    yet the mode filter applies and removes every file. *)
Lemma bare_mode_flag_removes_all :
  get_files_list Sample.root
    (Sample.with_files ["res/GrabCut_NoBRS.pickle"] (Some []) ["GrabCut"]) Sample.cfg
  = Ok []
  /\ get_files_list Sample.root
       (Sample.with_files ["res/GrabCut_NoBRS.pickle"] None ["GrabCut"]) Sample.cfg
     = Ok [["res"; "GrabCut_NoBRS.pickle"]].
Proof. split; reflexivity. Qed.

Lemma NoDup_children (dir : path) (names : list string) :
  NoDup names -> NoDup (map (fun nm => dir ++ [nm]) names).
Proof.
  induction 1 as [| nm names Hnot _ IH]; simpl; constructor; [| exact IH].
  intros Hin. apply in_map_iff in Hin. destruct Hin as (nm' & E & Hin').
  apply app_inv_head in E. injection E as ->. contradiction.
Qed.

Lemma glob_NoDup (root : node) (dir : path) (pre suf : string) :
  NoDup (scandir root dir) -> NoDup (glob root dir pre suf).
Proof.
  intros H. unfold glob. apply NoDup_children, NoDup_filter, H.
Qed.

(** C5, as the code has it. Whatever the input mode, the list the resolver
    returns is sorted (paths compared part by part) and is a rearrangement of
    the source's files that pass the filters: nothing removes repetitions, so
    a path the source holds twice is returned twice, and the result is free of
    duplicates when the source is, as in folder mode. *)
Theorem resolver_sorted_rearrangement
    (root : node) (args : Args) (cfg : Cfg) (fl : list path) :
  get_files_list root args cfg = Ok fl ->
  StronglySorted path_le fl
  /\ exists src,
       resolve_source root args cfg = Ok (Some src)
       /\ Permutation fl (filter (passes_filters args) src)
       /\ (NoDup src -> NoDup fl)
       /\ (forall f, folder args = Some f -> NoDup (scandir root (Path f)) -> NoDup fl).
Proof.
  intros Hget. destruct (get_files_list_inv _ _ _ _ Hget) as [src Hsrc].
  rewrite (get_files_list_bound _ _ _ _ Hsrc) in Hget. injection Hget as <-.
  split; [apply sorted_paths_ordered |].
  exists src. split; [exact Hsrc |]. split; [apply sorted_perm |].
  assert (Hnd : NoDup src -> NoDup (sorted path_leb (filter (passes_filters args) src))).
  { intros H. eapply Permutation_NoDup; [apply Permutation_sym, sorted_perm |].
    apply NoDup_filter, H. }
  split; [exact Hnd |].
  intros f Hf Hscan. apply Hnd.
  unfold resolve_source in Hsrc. rewrite Hf in Hsrc. injection Hsrc as <-.
  apply glob_NoDup, Hscan.
Qed.

Lemma resolver_sorted_rearrangement_witness :
  StronglySorted path_le [["res"; "Berkeley_NoBRS.pickle"]; ["res"; "GrabCut_NoBRS.pickle"]].
Proof.
  apply (resolver_sorted_rearrangement Sample.root
           (Sample.with_folder "res" ["GrabCut"; "Berkeley"]) Sample.cfg).
  reflexivity.
Defined.

(** C5 as stated fails: a file named twice on the command line is returned
    twice. *)
Lemma repeated_file_is_returned_twice :
  get_files_list Sample.root
    (Sample.with_files ["res/GrabCut_NoBRS.pickle"; "res/GrabCut_NoBRS.pickle"]
                       None ["GrabCut"])
    Sample.cfg
  = Ok [["res"; "GrabCut_NoBRS.pickle"]; ["res"; "GrabCut_NoBRS.pickle"]]
  /\ ~ NoDup [["res"; "GrabCut_NoBRS.pickle"]; ["res"; "GrabCut_NoBRS.pickle"]].
Proof.
  split; [reflexivity |].
  intros H. inversion H as [| ? ? Hnot _]. apply Hnot. left. reflexivity.
Qed.

Lemma exp_model_files_well_formed (root : node) (cfg : Cfg) (entry rel pre : string) :
  path_colon_prefix entry rel pre ->
  (exists found, exp_model_files root cfg entry = Ok found)
  \/ exp_model_files root cfg entry = Err invalid_experiment.
Proof.
  unfold path_colon_prefix, exp_model_files. intros ->.
  destruct (exp_candidates root cfg rel) as [| c [| c' l]]; eauto.
Qed.

Lemma exp_model_files_ambiguous (root : node) (cfg : Cfg) (entry rel pre : string) :
  path_colon_prefix entry rel pre ->
  List.length (exp_candidates root cfg rel) <> 1%nat ->
  exp_model_files root cfg entry = Err invalid_experiment.
Proof.
  unfold path_colon_prefix, exp_model_files. intros -> Hlen.
  destruct (exp_candidates root cfg rel) as [| c [| c' l]]; simpl in Hlen;
    [reflexivity | congruence | reflexivity].
Qed.

Lemma exp_models_loop_ambiguous (root : node) (cfg : Cfg) (entries : list string) :
  Forall (fun e => exists rel pre, path_colon_prefix e rel pre) entries ->
  Exists (fun e => exists rel pre,
            path_colon_prefix e rel pre
            /\ List.length (exp_candidates root cfg rel) <> 1%nat) entries ->
  forall files_list,
    exp_models_loop root cfg entries files_list = Err invalid_experiment.
Proof.
  intros Hwf Hbad. induction Hbad as [e rest (rel & pre & He & Hlen) | e rest Hbad IH];
    intros files_list; simpl.
  - rewrite (exp_model_files_ambiguous _ _ _ _ _ He Hlen). reflexivity.
  - inversion Hwf as [| ? ? (rel & pre & He) Hrest]; subst.
    destruct (exp_model_files_well_formed root cfg e rel pre He) as [[found ->] | ->];
      simpl; [apply IH; exact Hrest | reflexivity].
Qed.

(** C7, as the code has it. With [--exp-models] entries of the form
    [path:prefix] whose glob patterns are taken literally (none of [*], [?],
    [[], [/] in the stem of the experiment path or in the checkpoint prefix),
    if for some entry the glob of the experiment path lists no path or more
    than one (directories and plain files counted alike), the run fails with
    the assertion error, and no container file has been opened. *)
Theorem ambiguous_experiment_fails_before_reading
    (root : node) (args : Args) (cfg : Cfg) (entries : list string) :
  folder args = None -> files args = None -> model_dirs args = None ->
  exp_models args = Some entries ->
  Forall (fun e => exists rel pre,
            path_colon_prefix e rel pre /\ plain_entry cfg rel pre) entries ->
  Exists (fun e => exists rel pre,
            path_colon_prefix e rel pre
            /\ List.length (exp_candidates root cfg rel) <> 1%nat) entries ->
  get_files_list root args cfg = Err invalid_experiment
  /\ main root args cfg
     = ({| fs := root; opened := []; saved := [] |}, Err invalid_experiment).
Proof.
  intros H1 H2 H3 H4 Hplain Hbad.
  assert (Hwf : Forall (fun e => exists rel pre, path_colon_prefix e rel pre) entries).
  { apply (Forall_impl _ (P := fun e => exists rel pre,
                               path_colon_prefix e rel pre /\ plain_entry cfg rel pre));
      [| exact Hplain].
    intros e (rel & pre & He & _). exists rel, pre. exact He. }
  assert (Hget : get_files_list root args cfg = Err invalid_experiment).
  { unfold get_files_list, resolve_source. rewrite H1, H2, H3, H4.
    rewrite (exp_models_loop_ambiguous root cfg entries Hwf Hbad). reflexivity. }
  split; [exact Hget |]. unfold main. rewrite Hget. reflexivity.
Qed.

Lemma ambiguous_experiment_fails_before_reading_witness :
  List.length (exp_candidates Sample.root Sample.cfg "sbd") = 2%nat
  /\ main Sample.root (Sample.with_exp_models ["sbd_a:ckpt"; "sbd:ckpt"]) Sample.cfg
     = ({| fs := Sample.root; opened := []; saved := [] |}, Err invalid_experiment).
Proof.
  split; [reflexivity |].
  apply (ambiguous_experiment_fails_before_reading Sample.root
           (Sample.with_exp_models ["sbd_a:ckpt"; "sbd:ckpt"]) Sample.cfg
           ["sbd_a:ckpt"; "sbd:ckpt"]); try reflexivity.
  - repeat constructor.
    + exists "sbd_a", "ckpt". split; [reflexivity | split; reflexivity].
    + exists "sbd", "ckpt". split; [reflexivity | split; reflexivity].
  - right. left. exists "sbd", "ckpt". split; [reflexivity | simpl; discriminate].
Defined.

(** C7 as stated fails: the glob may list one plain file and no directory at
    all; the assertion then holds and the run ends without an error. *)
Lemma lone_plain_file_passes_the_assertion :
  exp_candidates Sample.root Sample.cfg "bar" = [["exps"; "evaluation_logs"; "bar.txt"]]
  /\ filter (is_dir Sample.root) (exp_candidates Sample.root Sample.cfg "bar") = []
  /\ get_files_list Sample.root (Sample.with_exp_models ["bar:ckpt"]) Sample.cfg = Ok []
  /\ main Sample.root (Sample.with_exp_models ["bar:ckpt"]) Sample.cfg
     = ({| fs := Sample.root; opened := []; saved := [] |}, Ok tt).
Proof. split; [| split; [| split]]; reflexivity. Qed.

(** ** The renderer *)

Lemma savefig_ok (w w' : world) (fig_path : path) (fig : figure) :
  savefig w fig_path fig = (w', Ok tt) ->
  saved w' = saved w ++ [fig_path] /\ opened w' = opened w.
Proof.
  unfold savefig. destruct (put _ _ _); intros H; inversion H. split; reflexivity.
Qed.

Lemma render_dataset_ok (w w' : world) (args : Args) (ds : string) (r : odict ndarray) :
  render_dataset w args ds r = (w', Ok tt) ->
  exists fig_path,
    get_target_file_path (fs w) (plots_path args) (display_name ds) = Ok fig_path
    /\ saved w' = saved w ++ [fig_path]
    /\ od_get (display_name ds) range_mapper <> None.
Proof.
  unfold render_dataset.
  destruct (model_curves _ _) as [cs | e]; [| discriminate].
  destruct (od_get (display_name ds) range_mapper) as [ticks |]; [| discriminate].
  destruct (get_target_file_path _ _ _) as [fig_path | e]; [| discriminate].
  intros H. apply savefig_ok in H. destruct H as [H _].
  exists fig_path. split; [reflexivity |]. split; [exact H | discriminate].
Qed.

(** A render that fails leaves the world as it found it. *)
Lemma render_dataset_err (w w' : world) (args : Args) (ds : string) (r : odict ndarray)
    (e : exn) :
  render_dataset w args ds r = (w', Err e) -> w' = w.
Proof.
  unfold render_dataset.
  destruct (model_curves _ _) as [cs | e1]; [| congruence].
  destruct (od_get (display_name ds) range_mapper) as [ticks |]; [| congruence].
  destruct (get_target_file_path _ _ _) as [fig_path | e2]; [| congruence].
  unfold savefig. destruct (put _ _ _); congruence.
Qed.

Lemma render_all_app (w : world) (args : Args) (pre post : aggregated) (w' : world) :
  render_all w args pre = (w', Ok tt) ->
  render_all w args (pre ++ post) = render_all w' args post.
Proof.
  revert w. induction pre as [| [ds r] pre IH]; intros w; simpl.
  - congruence.
  - destruct (render_dataset w args ds r) as [w1 [[] | e]]; [apply IH | discriminate].
Qed.

Lemma render_all_saved (w : world) (args : Args) (pre : aggregated) (w' : world) :
  render_all w args pre = (w', Ok tt) ->
  exists figs, saved w' = saved w ++ figs /\ List.length figs = List.length pre.
Proof.
  revert w. induction pre as [| [ds r] pre IH]; intros w; simpl.
  - intros H. injection H as <-. exists []. rewrite List.app_nil_r. split; reflexivity.
  - destruct (render_dataset w args ds r) as [w1 [[] | e]] eqn:Hr; [| discriminate].
    intros H. apply IH in H. destruct H as (figs & Hs & Hl).
    apply render_dataset_ok in Hr. destruct Hr as (fig_path & _ & Hs1 & _).
    exists (fig_path :: figs). rewrite Hs, Hs1, <- List.app_assoc. simpl.
    split; [reflexivity | congruence].
Qed.

(** The loop over the models of a dataset completes when each of them has a
    sequence of at least two clicks and a color the plot call accepts. *)
Lemma model_curves_drawn (n : Z) (dataset_results : odict ndarray) :
  Forall (fun entry => exists v,
            snd entry = Vec v
            /\ (2 <= truncated_length n (List.length v))%nat
            /\ ~ In (fst entry) colorless_models) dataset_results ->
  exists cs, model_curves n dataset_results = Ok cs.
Proof.
  induction 1 as [| [name_of_model r] rest (v & Hv & Hlen & Hcolor) _ [cs IH]]; simpl.
  - eexists. reflexivity.
  - simpl in Hv, Hcolor. subst r.
    destruct (model_curve_drawn n name_of_model v) as (c & Hc & _);
      [rewrite truncate_ious_length; exact Hlen | exact Hcolor |].
    rewrite Hc, IH. simpl. eexists. reflexivity.
Qed.

(** C9, as the code has it. When a dataset's display name is absent from the
    axis-range table, rendering it raises and writes no figure: the run stops
    there with the world the earlier datasets left, one saved figure for each
    of them and none taken back.  The error is the lookup failure whenever
    the loop over the models of the dataset completes, as it does when every
    model has a sequence of at least two clicks after truncation and a color
    that the plot call accepts. *)
Theorem missing_axis_range_aborts_dataset
    (w w' : world) (args : Args) (pre post : aggregated)
    (ds : string) (dataset_results : odict ndarray) :
  render_all w args pre = (w', Ok tt) ->
  od_get (display_name ds) range_mapper = None ->
  exists e figs,
    render_all w args (pre ++ (ds, dataset_results) :: post) = (w', Err e)
    /\ saved w' = saved w ++ figs
    /\ List.length figs = List.length pre
    /\ (forall cs, model_curves (n_clicks args) dataset_results = Ok cs ->
          e = KeyError (display_name ds))
    /\ (Forall (fun entry => exists v,
                  snd entry = Vec v
                  /\ (2 <= truncated_length (n_clicks args) (List.length v))%nat
                  /\ ~ In (fst entry) colorless_models) dataset_results ->
        e = KeyError (display_name ds)).
Proof.
  intros Hpre Hmiss.
  destruct (render_all_saved _ _ _ _ Hpre) as (figs & Hs & Hl).
  rewrite (render_all_app _ _ _ ((ds, dataset_results) :: post) _ Hpre). simpl.
  unfold render_dataset. rewrite Hmiss.
  destruct (model_curves (n_clicks args) dataset_results) as [cs | e1] eqn:Hcs.
  - exists (KeyError (display_name ds)), figs. repeat split; auto.
  - exists e1, figs. repeat split; auto; [discriminate |].
    intros Hall. destruct (model_curves_drawn _ _ Hall) as [cs Hok]. congruence.
Qed.

Lemma missing_axis_range_aborts_dataset_witness :
  exists e figs,
    render_all Sample.empty_out Sample.args0
      ([("Berkeley", Sample.results_a)] ++ ("Cityscapes", Sample.results_a) :: [])
    = (fst (render_all Sample.empty_out Sample.args0 [("Berkeley", Sample.results_a)]), Err e)
    /\ saved (fst (render_all Sample.empty_out Sample.args0 [("Berkeley", Sample.results_a)]))
       = saved Sample.empty_out ++ figs
    /\ List.length figs = 1%nat
    /\ (forall cs, model_curves (n_clicks Sample.args0) Sample.results_a = Ok cs ->
          e = KeyError (display_name "Cityscapes"))
    /\ (Forall (fun entry => exists v,
                  snd entry = Vec v
                  /\ (2 <= truncated_length (n_clicks Sample.args0) (List.length v))%nat
                  /\ ~ In (fst entry) colorless_models) Sample.results_a ->
        e = KeyError (display_name "Cityscapes")).
Proof.
  apply (missing_axis_range_aborts_dataset Sample.empty_out
           (fst (render_all Sample.empty_out Sample.args0 [("Berkeley", Sample.results_a)]))
           Sample.args0 [("Berkeley", Sample.results_a)] []
           "Cityscapes" Sample.results_a).
  - vm_compute. reflexivity.
  - reflexivity.
Defined.

(** C9 as stated fails when the curves of the dataset cannot be computed: with
    a cap of 0 every sequence is empty and [min] raises before the axis-range
    table is consulted. *)
Lemma empty_curve_fails_before_the_lookup :
  od_get (display_name "Cityscapes") range_mapper = None
  /\ main Sample.root
       (Sample.capped 0 (Sample.with_files ["res/Cityscapes_NoBRS.pickle"] None ["City"]))
       Sample.cfg
     = ({| fs := Sample.root; opened := [["res"; "Cityscapes_NoBRS.pickle"]]; saved := [] |},
        Err (ValueError "min() arg is an empty sequence")).
Proof. split; reflexivity. Qed.

(** A whole run: the figure of Berkeley is on disk when Cityscapes fails. *)
Example run_saves_then_fails :
  let '(w, r) := main Sample.root
                   (Sample.with_files ["res/Berkeley_NoBRS.pickle"; "res/Cityscapes_NoBRS.pickle"]
                                      None ["Berkeley"; "City"])
                   Sample.cfg in
  r = Err (KeyError "Cityscapes")
  /\ saved w = [["out"; "Berkeley_000.png"]]
  /\ scandir (fs w) ["out"] = ["Berkeley_000.png"].
Proof. vm_compute. repeat split. Qed.

(** ** Output file names *)

Lemma string_append_assoc (a b c : string) : ((a ++ b) ++ c = a ++ b ++ c)%string.
Proof. induction a as [| x a IH]; simpl; [reflexivity | rewrite IH; reflexivity]. Qed.

Lemma string_length_append (a b : string) :
  String.length (a ++ b) = (String.length a + String.length b)%nat.
Proof. induction a as [| x a IH]; simpl; [reflexivity | rewrite IH; reflexivity]. Qed.

Lemma endswith_append (x s : string) : Str.endswith s (x ++ s) = true.
Proof.
  induction x as [| c x IH]; cbn [append Str.endswith].
  - destruct s; cbn [Str.endswith]; rewrite String.eqb_refl; reflexivity.
  - rewrite IH. apply orb_true_r.
Qed.

Lemma string_compare_append_l (p a b : string) :
  String.compare (p ++ a) (p ++ b) = String.compare a b.
Proof.
  induction p as [| c p IH]; simpl; [reflexivity |].
  rewrite ascii_compare_refl. exact IH.
Qed.

Lemma path_compare_children (d : path) (a b : string) :
  path_compare (d ++ [a]) (d ++ [b]) = String.compare a b.
Proof.
  induction d as [| c d IH]; simpl.
  - destruct (String.compare a b); reflexivity.
  - rewrite string_compare_refl. exact IH.
Qed.

Lemma rsplit1_png (s : string) : Str.rsplit1 "." (s ++ ".png") = Some (s, "png").
Proof.
  induction s as [| c s IH]; [reflexivity |].
  cbn [append Str.rsplit1]. rewrite IH. reflexivity.
Qed.

Lemma stem_of_name_png (s : string) :
  s <> EmptyString -> stem_of_name (s ++ ".png") = s.
Proof.
  intros Hs. unfold stem_of_name. rewrite rsplit1_png.
  destruct s; [contradiction | reflexivity].
Qed.

Lemma name_child (d : path) (nm : string) :
  is_anchor nm = false -> name (d ++ [nm]) = nm.
Proof.
  intros Hnm. unfold name.
  destruct d as [| c d].
  - cbn [app is_absolute]. rewrite Hnm. reflexivity.
  - change ((c :: d) ++ [nm]) with (c :: (d ++ [nm])).
    destruct (is_absolute (c :: d ++ [nm])).
    + cbn [tl]. apply last_last.
    + change (c :: d ++ [nm]) with ((c :: d) ++ [nm]). apply last_last.
Qed.

Lemma anchor_is_short (part : string) :
  is_anchor part = true -> (String.length part <= 2)%nat.
Proof.
  unfold is_anchor. rewrite orb_true_iff.
  intros [H | H]; apply String.eqb_eq in H; subst; simpl; lia.
Qed.

Lemma target_name_not_anchor (ds : string) (index : Z) :
  is_anchor (target_name ds index) = false.
Proof.
  destruct (is_anchor (target_name ds index)) eqn:E; [| reflexivity].
  apply anchor_is_short in E. unfold target_name in E.
  rewrite !string_length_append in E. simpl in E. lia.
Qed.

Lemma split_under (sep : ascii) (s d : string) :
  Str.split sep d = [d] ->
  exists w ws, Str.split sep (s ++ String sep d) = w :: ws ++ [d].
Proof.
  intros Hd. induction s as [| c s (w & ws & IH)]; cbn [append Str.split].
  - rewrite Ascii.eqb_refl, Hd. exists EmptyString, []. reflexivity.
  - rewrite IH. destruct (Ascii.eqb c sep).
    + exists EmptyString, (w :: ws). reflexivity.
    + exists (String c w), ws. reflexivity.
Qed.

Lemma last_field (sep : ascii) (s d : string) :
  Str.split sep d = [d] ->
  last (Str.split sep (s ++ String sep d)) EmptyString = d.
Proof.
  intros Hd. destruct (split_under sep s d Hd) as (w & ws & ->).
  change (w :: ws ++ [d]) with ((w :: ws) ++ [d]). apply last_last.
Qed.

Lemma format_03d_facts (i : nat) :
  (i < 1000)%nat ->
  int (format_03d (Z.of_nat i)) = Ok (Z.of_nat i)
  /\ String.length (format_03d (Z.of_nat i)) = 3%nat
  /\ Str.split "_" (format_03d (Z.of_nat i)) = [format_03d (Z.of_nat i)].
Proof.
  intros Hi.
  assert (Hall : forallb index_roundtrips (seq 0 1000) = true) by (vm_compute; reflexivity).
  rewrite forallb_forall in Hall.
  specialize (Hall i). unfold index_roundtrips in Hall.
  rewrite !andb_true_iff in Hall.
  destruct Hall as [[Hint Hlen] Hsplit]; [apply in_seq; lia |].
  split; [| split].
  - destruct (int (format_03d (Z.of_nat i))) as [z | e]; [| discriminate].
    apply Z.eqb_eq in Hint. congruence.
  - apply Nat.eqb_eq. exact Hlen.
  - destruct (Str.split "_" (format_03d (Z.of_nat i))) as [| w [| w' ws]];
      try discriminate.
    apply String.eqb_eq in Hsplit. congruence.
Qed.

Lemma format_03d_increasing (j i : nat) :
  (j < i)%nat -> (i < 1000)%nat ->
  String.compare (format_03d (Z.of_nat j) ++ ".png") (format_03d (Z.of_nat i) ++ ".png") = Lt.
Proof.
  assert (Hall : forallb index_precedes_next (seq 0 999) = true) by (vm_compute; reflexivity).
  rewrite forallb_forall in Hall.
  assert (Hstep : forall k, (k < 999)%nat ->
            String.compare (format_03d (Z.of_nat k) ++ ".png")
                           (format_03d (Z.of_nat (S k)) ++ ".png") = Lt).
  { intros k Hk. specialize (Hall k). unfold index_precedes_next in Hall.
    destruct (String.compare _ _); try reflexivity;
      (assert (false = true) by (apply Hall, in_seq; lia); discriminate). }
  induction i as [| i IH]; intros Hji Hi; [lia |].
  destruct (Nat.eq_dec j i) as [-> | NE].
  - apply Hstep. lia.
  - eapply string_compare_lt_trans; [apply IH; lia | apply Hstep; lia].
Qed.

Lemma target_name_increasing (ds : string) (j i : nat) :
  (j < i)%nat -> (i < 1000)%nat ->
  String.compare (target_name ds (Z.of_nat j)) (target_name ds (Z.of_nat i)) = Lt.
Proof.
  intros Hji Hi. unfold target_name.
  rewrite string_compare_append_l, string_compare_append_l.
  apply format_03d_increasing; assumption.
Qed.

Lemma fnmatch_target_name (ds : string) (index : Z) :
  fnmatch (ds ++ "_") ".png" (target_name ds index) = true.
Proof.
  unfold fnmatch, target_name. rewrite !andb_true_iff. split; [split |].
  - apply prefix_spec. exists (format_03d index ++ ".png")%string.
    rewrite string_append_assoc. reflexivity.
  - rewrite <- !string_append_assoc. apply endswith_append.
  - apply Nat.leb_le. rewrite !string_length_append. simpl. lia.
Qed.

(** The index read off a canonical plot name. *)
Lemma index_of_target_name (plots : path) (ds : string) (i : nat) :
  (i < 1000)%nat ->
  int (last (Str.split "_" (stem (plots ++ [target_name ds (Z.of_nat i)]))) EmptyString)
  = Ok (Z.of_nat i).
Proof.
  intros Hi. destruct (format_03d_facts i Hi) as (Hint & Hlen & Hsplit).
  unfold stem. rewrite name_child by apply target_name_not_anchor.
  unfold target_name. rewrite <- !string_append_assoc.
  rewrite stem_of_name_png.
  - rewrite string_append_assoc. cbn [append].
    rewrite last_field by exact Hsplit. exact Hint.
  - rewrite string_append_assoc. destruct ds; discriminate.
Qed.

Lemma filter_none {A : Type} (f : A -> bool) (l : list A) :
  (forall x, In x l -> f x = false) -> filter f l = [].
Proof.
  induction l as [| a l IH]; intros H; simpl; [reflexivity |].
  rewrite (H a) by (left; reflexivity). apply IH. intros x Hx. apply H. right. exact Hx.
Qed.

Lemma last_in {A : Type} (l : list A) (d : A) : l <> [] -> In (last l d) l.
Proof.
  intros Hl. destruct (exists_last Hl) as (l' & a & ->).
  rewrite last_last. apply in_or_app. right. left. reflexivity.
Qed.

Lemma glob_in (root : node) (dir : path) (pre suf : string) (p : path) :
  In p (glob root dir pre suf) <->
  exists nm, p = dir ++ [nm] /\ In nm (scandir root dir) /\ fnmatch pre suf nm = true.
Proof.
  unfold glob. rewrite in_map_iff. split.
  - intros (nm & E & Hin). apply filter_In in Hin. exists nm. split; [congruence | exact Hin].
  - intros (nm & E & Hin). exists nm. split; [congruence | apply filter_In; exact Hin].
Qed.

(** The last of the sorted plots is the one with the highest index. *)
Lemma last_plot_is_highest (root : node) (plots : path) (ds : string) (i : nat) :
  canonical_plots root plots ds ->
  (i < 999)%nat ->
  In (target_name ds (Z.of_nat i)) (scandir root plots) ->
  (forall j, (j < 999)%nat ->
             In (target_name ds (Z.of_nat j)) (scandir root plots) -> (j <= i)%nat) ->
  exists p rest,
    sorted path_leb (glob root plots (ds ++ "_") ".png") = p :: rest
    /\ last (p :: rest) [] = plots ++ [target_name ds (Z.of_nat i)].
Proof.
  intros Hcanon Hi' Hi Hmax.
  set (previous_plots := sorted path_leb (glob root plots (ds ++ "_") ".png")).
  assert (Hin : In (plots ++ [target_name ds (Z.of_nat i)]) previous_plots).
  { apply sorted_in, glob_in. exists (target_name ds (Z.of_nat i)).
    split; [reflexivity |]. split; [exact Hi | apply fnmatch_target_name]. }
  assert (Hne : previous_plots <> []) by (intros E; rewrite E in Hin; destruct Hin).
  assert (Hle : path_le (plots ++ [target_name ds (Z.of_nat i)]) (last previous_plots [])).
  { apply (strongly_sorted_last path_leb); [apply path_leb_refl | | exact Hin].
    apply sorted_paths_ordered. }
  pose proof (last_in previous_plots [] Hne) as Hlast.
  apply sorted_in, glob_in in Hlast. destruct Hlast as (nm & E & Hnm & Hmatch).
  destruct (Hcanon nm Hnm Hmatch) as (j & Hj & ->).
  assert (Hji : (j <= i)%nat) by (apply Hmax; assumption).
  assert (j = i) as ->.
  { destruct (Nat.eq_dec j i) as [-> | NE]; [reflexivity | exfalso].
    unfold path_le, path_leb in Hle. rewrite E, path_compare_children in Hle.
    rewrite String.compare_antisym in Hle.
    rewrite (target_name_increasing ds j i) in Hle by lia. discriminate. }
  destruct previous_plots as [| p rest] eqn:Hprev; [contradiction |].
  exists p, rest. split; [reflexivity | exact E].
Qed.

(** C8, as the code has it. For a display name that the glob pattern takes
    literally (none of [*], [?], [[], [/] in it), in an output directory whose
    plots of the dataset all carry a three-digit index below 999, the chosen
    file is the display name, an underscore and a three-digit zero-padded
    index: 0 when the dataset has no plot there, otherwise one more than the
    highest index present.  In particular three successive runs for GrabCut into an empty
    directory write [GrabCut_000.png], [GrabCut_001.png], [GrabCut_002.png]. *)
Theorem next_plot_name (root : node) (plots : path) (ds : string) :
  plain_pattern ds = true ->
  canonical_plots root plots ds ->
  ((forall nm, In nm (scandir root plots) -> fnmatch (ds ++ "_") ".png" nm = false) ->
   get_target_file_path root plots ds = Ok (plots ++ [(ds ++ "_000.png")%string]))
  /\ (forall i : nat,
        (i < 999)%nat ->
        In (target_name ds (Z.of_nat i)) (scandir root plots) ->
        (forall j : nat,
            (j < 999)%nat ->
            In (target_name ds (Z.of_nat j)) (scandir root plots) -> (j <= i)%nat) ->
        get_target_file_path root plots ds
        = Ok (plots ++ [(ds ++ "_" ++ format_03d (Z.of_nat i + 1) ++ ".png")%string])
        /\ String.length (format_03d (Z.of_nat i + 1)) = 3%nat
        /\ int (format_03d (Z.of_nat i + 1)) = Ok (Z.of_nat i + 1)%Z)
  /\ (let run := fun tree =>
                   main tree (Sample.with_files ["res/GrabCut_NoBRS.pickle"] None ["GrabCut"])
                        Sample.cfg in
      let w1 := fst (run Sample.root) in
      let w2 := fst (run (fs w1)) in
      let w3 := fst (run (fs w2)) in
      scandir Sample.root ["out"] = []
      /\ saved w1 = [["out"; "GrabCut_000.png"]]
      /\ saved w2 = [["out"; "GrabCut_001.png"]]
      /\ saved w3 = [["out"; "GrabCut_002.png"]]
      /\ scandir (fs w3) ["out"]
         = ["GrabCut_000.png"; "GrabCut_001.png"; "GrabCut_002.png"]).
Proof.
  intros _ Hcanon. split; [| split].
  - intros Hnone. unfold get_target_file_path, glob.
    rewrite (filter_none _ _ Hnone). reflexivity.
  - intros i Hi Hin Hmax.
    destruct (last_plot_is_highest root plots ds i Hcanon Hi Hin Hmax)
      as (p & rest & Hsorted & Hlast).
    assert (Hnext : (Z.of_nat i + 1)%Z = Z.of_nat (S i)) by lia.
    destruct (format_03d_facts (S i)) as (Hint & Hlen & _); [lia |].
    split; [| rewrite Hnext; split; assumption].
    unfold get_target_file_path. rewrite Hsorted, Hlast.
    rewrite index_of_target_name by lia. reflexivity.
  - vm_compute. repeat split.
Qed.

Lemma next_plot_name_witness :
  get_target_file_path Sample.two_plots ["out"] "GrabCut" = Ok ["out"; "GrabCut_002.png"].
Proof.
  assert (Hcanon : canonical_plots Sample.two_plots ["out"] "GrabCut").
  { intros nm Hin Hmatch. simpl in Hin.
    destruct Hin as [<- | [<- | [<- | []]]].
    - exists 1%nat. split; [lia | reflexivity].
    - discriminate.
    - exists 0%nat. split; [lia | reflexivity]. }
  destruct (next_plot_name Sample.two_plots ["out"] "GrabCut" eq_refl Hcanon)
    as (_ & Hnext & _).
  apply (Hnext 1%nat).
  - lia.
  - simpl. left. reflexivity.
  - intros j Hj Hin. simpl in Hin.
    destruct (Nat.le_gt_cases j 1) as [Hle | Hgt]; [exact Hle | exfalso].
    destruct Hin as [E | [E | [E | []]]].
    + pose proof (target_name_increasing "GrabCut" 1 j Hgt) as Hcmp.
      rewrite <- E in Hcmp. discriminate Hcmp. lia.
    + unfold target_name in E. cbn [append] in E. discriminate E.
    + pose proof (target_name_increasing "GrabCut" 0 j) as Hcmp.
      rewrite <- E in Hcmp. discriminate Hcmp; lia.
Defined.

(** C8 as stated fails once an index has four digits: the plots sort as
    text, [GrabCut_1000.png] before [GrabCut_999.png], so the index chosen is
    1000 again, not one more than the highest one present, and it is not a
    three-digit index. *)
Lemma four_digit_index_is_reused :
  scandir Sample.crowded_out ["out"] = ["GrabCut_999.png"; "GrabCut_1000.png"]
  /\ get_target_file_path Sample.crowded_out ["out"] "GrabCut"
     = Ok ["out"; "GrabCut_1000.png"]
  /\ get_target_file_path Sample.crowded_out ["out"] "GrabCut"
     <> Ok ["out"; "GrabCut_1001.png"]
  /\ In "GrabCut_1000.png" (scandir Sample.crowded_out ["out"]).
Proof.
  split; [reflexivity |]. split; [reflexivity |]. split; [discriminate |].
  right. left. reflexivity.
Qed.

(** A plot whose name does not end in an index stops the renderer. *)
Example unreadable_index :
  get_target_file_path
    (Dir [("out", Dir [("GrabCut_final.png", File Blob)])]) ["out"] "GrabCut"
  = Err (ValueError "invalid literal for int()").
Proof. reflexivity. Qed.

(** [parse_args] splits [--datasets] and creates the default output
    directory under the experiments path. *)
Example parse_args_defaults :
  exists tree args,
    parse_args Sample.root Sample.namespace0 Sample.cfg = Ok (tree, args)
    /\ datasets args = ["GrabCut"; "Berkeley"]
    /\ plots_path args = ["exps"; "evaluation_logs"; "iou_analysis"]
    /\ is_dir tree (plots_path args) = true
    /\ is_dir Sample.root (plots_path args) = false.
Proof. eexists. eexists. split; [reflexivity |]. repeat split. Qed.

(** * Further properties *)

(** ** The aggregation mapping *)

Lemma od_get_set_other {V : Type} (k k' : string) (v : V) (d : odict V) :
  k' <> k -> od_get k' (od_set k v d) = od_get k' d.
Proof.
  intros NE. induction d as [| [k0 v0] d IH]; simpl.
  - destruct (String.eqb_spec k' k); [contradiction | reflexivity].
  - destruct (String.eqb_spec k k0) as [E | NE0]; simpl.
    + subst k0. destruct (String.eqb_spec k' k); [contradiction | reflexivity].
    + destruct (String.eqb_spec k' k0); [reflexivity | exact IH].
Qed.

Lemma od_get_in_keys {V : Type} (k : string) (d : odict V) :
  od_get k d <> None <-> In k (map fst d).
Proof.
  induction d as [| [k0 v0] d IH]; simpl.
  - split; [congruence | intros []].
  - destruct (String.eqb_spec k k0) as [E | NE].
    + split; [intros _; left; congruence | discriminate].
    + rewrite IH. split; [intros H; right; exact H |].
      intros [E | H]; [congruence | exact H].
Qed.

Lemma od_set_keys {V : Type} (k : string) (v : V) (d : odict V) :
  map fst (od_set k v d)
  = match od_get k d with
    | Some _ => map fst d
    | None => map fst d ++ [k]
    end.
Proof.
  induction d as [| [k0 v0] d IH]; simpl; [reflexivity |].
  destruct (String.eqb_spec k k0) as [E | NE]; simpl.
  - congruence.
  - rewrite IH. destruct (od_get k d); reflexivity.
Qed.

Lemma od_set_keys_NoDup {V : Type} (k : string) (v : V) (d : odict V) :
  NoDup (map fst d) -> NoDup (map fst (od_set k v d)).
Proof.
  intros H. rewrite od_set_keys. destruct (od_get k d) eqn:Hget; [exact H |].
  apply NoDup_app; [exact H | constructor; [intros [] | constructor] |].
  intros x Hx [<- | []]. apply od_get_in_keys in Hx. congruence.
Qed.

Lemma agg_get_set_other (ds model ds' model' : string) (value : ndarray) (agg : aggregated) :
  ds' <> ds \/ model' <> model ->
  agg_get ds' model' (agg_set ds model value agg) = agg_get ds' model' agg.
Proof.
  intros NE. unfold agg_get, agg_set.
  destruct (String.eqb_spec ds' ds) as [-> | NEds].
  - rewrite od_get_set_same.
    destruct NE as [NE | NE]; [contradiction |].
    rewrite od_get_set_other by exact NE.
    destruct (od_get ds agg); reflexivity.
  - rewrite od_get_set_other by exact NEds. reflexivity.
Qed.

Lemma aggregate_one_inv (n : Z) (data : container) (agg agg' : aggregated) :
  aggregate_one n data agg = Ok agg' ->
  exists value,
    np_mean0 (map (truncate_ious n) (all_ious data)) = Ok value
    /\ agg' = agg_set (dataset_name data) (model_name data) value agg.
Proof.
  unfold aggregate_one.
  destruct (np_mean0 _) as [value | e]; simpl; [| discriminate].
  intros H. injection H as <-. exists value. split; reflexivity.
Qed.

(** X1. A container replaces whatever was stored under its (dataset, model)
    pair and leaves every other entry of the mapping as it was. *)
Theorem aggregator_last_write_wins
    (n : Z) (data : container) (agg agg' : aggregated) :
  aggregate_one n data agg = Ok agg' ->
  exists value,
    np_mean0 (map (truncate_ious n) (all_ious data)) = Ok value
    /\ agg_get (dataset_name data) (model_name data) agg' = Some value
    /\ forall ds model,
         ds <> dataset_name data \/ model <> model_name data ->
         agg_get ds model agg' = agg_get ds model agg.
Proof.
  intros H. destruct (aggregate_one_inv _ _ _ _ H) as (value & Hmean & ->).
  exists value. split; [exact Hmean |]. split; [apply agg_get_set_same |].
  intros ds model NE. apply agg_get_set_other. exact NE.
Qed.

Lemma aggregator_last_write_wins_witness :
  exists agg' value,
    aggregate_one 2 Sample.grabcut More.stale_agg = Ok agg'
    /\ agg_get "GrabCut" "RITM-HRNet18_NoBRS" agg' = Some value
    /\ value <> Vec [1; 1; 1]
    /\ agg_get "GrabCut" "other" agg' = Some (Vec [1 # 2])
    /\ agg_get "SBD" "RITM-HRNet18_NoBRS" agg' = Some (Vec [1 # 3]).
Proof.
  destruct (aggregate_one 2 Sample.grabcut More.stale_agg) as [agg' | e] eqn:E;
    [| vm_compute in E; discriminate E].
  destruct (aggregator_last_write_wins _ _ _ _ E) as (value & Hmean & Hsame & Hother).
  exists agg', value. split; [reflexivity |]. split; [exact Hsame |]. split.
  - vm_compute in Hmean. injection Hmean as <-. discriminate.
  - split; rewrite Hother; try reflexivity; [right | left]; discriminate.
Defined.

(** X2. The datasets of the mapping stay in the order in which they were
    first seen: a container of a known dataset leaves the order alone, one of
    a new dataset is put last, and no dataset ever appears twice. *)
Theorem aggregator_keeps_first_seen_order
    (n : Z) (data : container) (agg agg' : aggregated) :
  aggregate_one n data agg = Ok agg' ->
  (In (dataset_name data) (map fst agg) -> map fst agg' = map fst agg)
  /\ (~ In (dataset_name data) (map fst agg) ->
      map fst agg' = map fst agg ++ [dataset_name data])
  /\ (NoDup (map fst agg) -> NoDup (map fst agg')).
Proof.
  intros H. destruct (aggregate_one_inv _ _ _ _ H) as (value & _ & ->).
  unfold agg_set. split; [| split].
  - intros Hin. rewrite od_set_keys. apply od_get_in_keys in Hin.
    destruct (od_get (dataset_name data) agg); [reflexivity | congruence].
  - intros Hnot. rewrite od_set_keys.
    destruct (od_get (dataset_name data) agg) eqn:Hget; [| reflexivity].
    exfalso. apply Hnot, od_get_in_keys. congruence.
  - apply od_set_keys_NoDup.
Qed.

Lemma aggregator_keeps_first_seen_order_witness :
  exists agg',
    aggregate_one (-1) Sample.berkeley More.stale_agg = Ok agg'
    /\ map fst agg' = ["GrabCut"; "SBD"; "Berkeley"].
Proof.
  destruct (aggregate_one (-1) Sample.berkeley More.stale_agg) as [agg' | e] eqn:E;
    [| vm_compute in E; discriminate E].
  exists agg'. split; [reflexivity |].
  apply (aggregator_keeps_first_seen_order _ _ _ _ E).
  simpl. intros [H | [H | []]]; discriminate.
Defined.

(** ** What a run reads and writes *)

Lemma load_pickle_inv (w w' : world) (file : path) (r : res container) :
  load_pickle w file = (w', r) ->
  fs w' = fs w /\ saved w' = saved w
  /\ ((exists c, resolve (fs w) file = Some (File c)) -> opened w' = opened w ++ [file])
  /\ ((forall c, resolve (fs w) file <> Some (File c)) ->
      opened w' = opened w /\ r = Err FileNotFoundError)
  /\ (forall data, r = Ok data <-> resolve (fs w) file = Some (File (Pickle data))).
Proof.
  unfold load_pickle.
  destruct (resolve (fs w) file) as [[c | es] |] eqn:Hres.
  - destruct c as [data | fig |]; intros H; inversion H; subst; simpl;
      (repeat split; auto; try congruence;
       try (intros Hno; exfalso; eapply Hno; reflexivity)).
  - intros H; inversion H; subst. repeat split; auto; try congruence.
    intros [c Hc]. discriminate.
  - intros H; inversion H; subst. repeat split; auto; try congruence.
    intros [c Hc]. discriminate.
Qed.

(** X3. The aggregator only reads: it leaves the file system and the saved
    figures alone and opens the files of its list one by one in the order of
    the list, stopping at the first one that fails; when it succeeds it has
    opened every file exactly once. *)
Theorem aggregate_opens_in_order
    (w w' : world) (n : Z) (files_list : list path) (agg : aggregated)
    (r : res aggregated) :
  aggregate w n files_list agg = (w', r) ->
  fs w' = fs w /\ saved w' = saved w
  /\ (exists k, (k <= List.length files_list)%nat
                /\ opened w' = opened w ++ firstn k files_list)
  /\ (forall agg', r = Ok agg' -> opened w' = opened w ++ files_list).
Proof.
  revert w agg. induction files_list as [| file rest IH]; intros w agg; simpl.
  - intros H. inversion H; subst. repeat split; auto.
    + exists 0%nat. split; [lia |]. simpl. rewrite List.app_nil_r. reflexivity.
    + intros _ _. rewrite List.app_nil_r. reflexivity.
  - destruct (load_pickle w file) as [w1 [data | e]] eqn:Hload.
    + destruct (load_pickle_inv _ _ _ _ Hload) as (Hfs & Hsaved & Hopen & _ & Hok).
      assert (Ho : opened w1 = opened w ++ [file]).
      { apply Hopen. exists (Pickle data). apply Hok. reflexivity. }
      destruct (aggregate_one n data agg) as [agg1 | e].
      * intros H. apply IH in H. destruct H as (Hfs' & Hsaved' & (k & Hk & Hopen') & Hall).
        split; [congruence |]. split; [congruence |]. split.
        -- exists (S k). split; [lia |].
           rewrite Hopen', Ho, <- List.app_assoc. reflexivity.
        -- intros agg' E. rewrite (Hall agg' E), Ho, <- List.app_assoc. reflexivity.
      * intros H. inversion H; subst.
        split; [exact Hfs |]. split; [exact Hsaved |]. split.
        -- exists 1%nat. split; [lia |]. rewrite Ho. reflexivity.
        -- discriminate.
    + destruct (load_pickle_inv _ _ _ _ Hload) as (Hfs & Hsaved & Hopen & Hmiss & _).
      intros H. inversion H; subst.
      split; [exact Hfs |]. split; [exact Hsaved |]. split; [| discriminate].
      destruct (resolve (fs w) file) as [[c | es] |] eqn:Hres.
      * exists 1%nat. split; [lia |]. simpl. apply Hopen. exists c. reflexivity.
      * exists 0%nat. split; [lia |]. simpl. rewrite List.app_nil_r.
        apply Hmiss. intros c. discriminate.
      * exists 0%nat. split; [lia |]. simpl. rewrite List.app_nil_r.
        apply Hmiss. intros c. discriminate.
Qed.

Lemma aggregate_opens_in_order_witness :
  let w := {| fs := More.unreadable; opened := []; saved := [] |} in
  let files_list := [["res"; "GrabCut_NoBRS.pickle"]; ["res"; "GrabCut_broken.pickle"];
                     ["res"; "GrabCut_last.pickle"]] in
  snd (aggregate w (-1) files_list []) = Err UnpicklingError
  /\ fs (fst (aggregate w (-1) files_list [])) = More.unreadable
  /\ exists k, (k <= 3)%nat
               /\ opened (fst (aggregate w (-1) files_list [])) = [] ++ firstn k files_list.
Proof.
  intros w files_list. split; [reflexivity |].
  destruct (aggregate_opens_in_order w (fst (aggregate w (-1) files_list [])) (-1)
              files_list [] (snd (aggregate w (-1) files_list [])))
    as (Hfs & _ & Hopen & _).
  - destruct (aggregate w (-1) files_list []); reflexivity.
  - split; [exact Hfs | exact Hopen].
Defined.

Lemma put_deeper (es : list (string * node)) (d x : string) (p : list string) (c : content) :
  put (Dir es) (d :: x :: p) c
  = match od_get d es with
    | Some n' =>
        match put n' (x :: p) c with
        | Some n'' => Some (Dir (od_set d n'' es))
        | None => None
        end
    | None => None
    end.
Proof. reflexivity. Qed.

Lemma put_walk_same (n n' : node) (p : list string) (c : content) :
  put n p c = Some n' -> walk n' p = Some (File c).
Proof.
  revert n n'. induction p as [| d p IH]; intros n n' H.
  - destruct n; discriminate.
  - destruct n as [c0 | es]; [discriminate |].
    destruct p as [| x p].
    + simpl in H. destruct (od_get d es) as [[c1 | es1] |]; inversion H; subst;
        simpl; rewrite od_get_set_same; reflexivity.
    + rewrite put_deeper in H. destruct (od_get d es) as [nd |]; [| discriminate].
      destruct (put nd (x :: p) c) as [nd' |] eqn:Hput; [| discriminate].
      inversion H; subst. cbn [walk]. rewrite od_get_set_same.
      apply (IH nd nd'). exact Hput.
Qed.

Lemma put_walk_other (n n' : node) (p q : list string) (c c0 : content) :
  put n p c = Some n' ->
  walk n q = Some (File c0) -> q <> p ->
  walk n' q = Some (File c0).
Proof.
  revert n n' q. induction p as [| d p IH]; intros n n' q H Hq NE.
  - destruct n; discriminate.
  - destruct n as [c1 | es]; [discriminate |].
    destruct q as [| a q]; [discriminate |].
    cbn [walk] in Hq. destruct (od_get a es) as [na |] eqn:Ha; [| discriminate].
    destruct p as [| x p].
    + simpl in H.
      destruct (String.eqb_spec a d) as [-> | NEa].
      * rewrite Ha in H. destruct na as [c2 | es2]; [| discriminate].
        destruct q; [congruence | discriminate].
      * assert (Hn' : n' = Dir (od_set d (File c) es))
          by (destruct (od_get d es) as [[? | ?] |]; congruence).
        subst n'. cbn [walk]. rewrite od_get_set_other by exact NEa.
        rewrite Ha. exact Hq.
    + rewrite put_deeper in H. destruct (od_get d es) as [nd |] eqn:Hd; [| discriminate].
      destruct (put nd (x :: p) c) as [nd' |] eqn:Hput; [| discriminate].
      inversion H; subst. cbn [walk].
      destruct (String.eqb_spec a d) as [-> | NEa].
      * rewrite od_get_set_same. rewrite Hd in Ha. injection Ha as <-.
        eapply IH; [exact Hput | exact Hq | congruence].
      * rewrite od_get_set_other by exact NEa. rewrite Ha. exact Hq.
Qed.

Lemma anchorless_child (d : path) (nm : string) :
  is_anchor nm = false -> anchorless (d ++ [nm]) = anchorless d ++ [nm].
Proof.
  intros Hnm. unfold anchorless. destruct d as [| c d]; cbn [app is_absolute].
  - rewrite Hnm. reflexivity.
  - destruct (is_anchor c); reflexivity.
Qed.

Lemma name_anchorless (p : path) : name p = last (anchorless p) EmptyString.
Proof. unfold name, anchorless. destruct (is_absolute p); reflexivity. Qed.

Lemma endswith_target_name (ds : string) (index : Z) :
  Str.endswith ".png" (target_name ds index) = true.
Proof.
  unfold target_name. rewrite <- !string_append_assoc. apply endswith_append.
Qed.

Lemma get_target_file_path_inv (root : node) (plots : path) (ds : string) (p : path) :
  get_target_file_path root plots ds = Ok p ->
  exists index, p = plots ++ [target_name ds index].
Proof.
  unfold get_target_file_path.
  destruct (sorted path_leb _) as [| p0 rest]; simpl.
  - intros H. injection H as <-. exists 0%Z. reflexivity.
  - destruct (int _) as [i | e]; simpl; [| discriminate].
    intros H. injection H as <-. exists (i + 1)%Z. reflexivity.
Qed.

(** One successful turn of the loop over datasets. *)
Lemma render_dataset_step (w w' : world) (args : Args) (ds : string) (r : odict ndarray) :
  render_dataset w args ds r = (w', Ok tt) ->
  exists index fig,
    let fig_path := plots_path args ++ [target_name (display_name ds) index] in
    put (fs w) (anchorless fig_path) (Png fig) = Some (fs w')
    /\ saved w' = saved w ++ [fig_path]
    /\ opened w' = opened w.
Proof.
  unfold render_dataset.
  destruct (model_curves _ _) as [cs | e]; [| discriminate].
  destruct (od_get (display_name ds) range_mapper) as [ticks |]; [| discriminate].
  destruct (get_target_file_path _ _ _) as [fig_path | e] eqn:Hpath; [| discriminate].
  destruct (get_target_file_path_inv _ _ _ _ Hpath) as [index ->].
  unfold savefig. fold (anchorless (plots_path args ++ [target_name (display_name ds) index])).
  destruct (put _ _ _) as [root' |] eqn:Hput; [| discriminate].
  intros H. inversion H; subst. simpl.
  exists index. eexists. split; [exact Hput |]. split; reflexivity.
Qed.

Lemma render_all_cons (w : world) (args : Args) (ds : string) (r : odict ndarray)
    (rest : aggregated) :
  render_all w args ((ds, r) :: rest)
  = match render_dataset w args ds r with
    | (w', Ok _) => render_all w' args rest
    | (w', Err e) => (w', Err e)
    end.
Proof. reflexivity. Qed.

(** X4. Rendering never opens a container file and only ever adds figures:
    each figure it saves lies directly in the output directory and is on disk
    when the loop ends, a file that was a figure is still one, and a file
    whose name does not end in [.png] is left as it was.  A loop that
    succeeds has saved one figure for each dataset. *)
Theorem render_only_adds_figures
    (w w' : world) (args : Args) (agg : aggregated) (r : res unit) :
  render_all w args agg = (w', r) ->
  opened w' = opened w
  /\ (exists figs,
        saved w' = saved w ++ figs
        /\ (List.length figs <= List.length agg)%nat
        /\ (r = Ok tt -> List.length figs = List.length agg)
        /\ Forall (fun p => (exists nm, p = plots_path args ++ [nm])
                            /\ exists fig, resolve (fs w') p = Some (File (Png fig)))
                  figs)
  /\ (forall q fig, resolve (fs w) q = Some (File (Png fig)) ->
                    exists fig', resolve (fs w') q = Some (File (Png fig')))
  /\ (forall q c0, resolve (fs w) q = Some (File c0) ->
                   Str.endswith ".png" (name q) = false ->
                   resolve (fs w') q = Some (File c0)).
Proof.
  revert w. induction agg as [| [ds dr] rest IH]; intros w H.
  - simpl in H. inversion H; subst. split; [reflexivity |]. split.
    + exists []. rewrite List.app_nil_r. repeat split; auto.
    + split; eauto.
  - rewrite render_all_cons in H.
    destruct (render_dataset w args ds dr) as [w1 [[] | e]] eqn:Hstep.
    + destruct (render_dataset_step _ _ _ _ _ Hstep) as (index & fig & Hput & Hsaved & Hopened).
      set (fig_path := plots_path args ++ [target_name (display_name ds) index]) in *.
      destruct (IH w1 H) as (Hop & (figs & Hs & Hle & Hall & Hfigs) & Hpng & Hkeep).
      assert (Hone : forall q c0, resolve (fs w) q = Some (File c0) ->
                anchorless q <> anchorless fig_path ->
                resolve (fs w1) q = Some (File c0)).
      { intros q c0 Hq NE. eapply put_walk_other; eassumption. }
      assert (Hnew : resolve (fs w1) fig_path = Some (File (Png fig))).
      { eapply put_walk_same. exact Hput. }
      split; [congruence |]. split; [| split].
      * exists (fig_path :: figs). rewrite Hs, Hsaved, <- List.app_assoc.
        split; [reflexivity |]. split; [simpl; lia |].
        split; [intros E; simpl; rewrite (Hall E); reflexivity |].
        constructor; [| exact Hfigs].
        split; [eexists; reflexivity | eapply Hpng; exact Hnew].
      * intros q fig0 Hq.
        destruct (list_eq_dec string_dec (anchorless q) (anchorless fig_path)) as [E | NE].
        -- apply (Hpng q fig). change (walk (fs w1) (anchorless q) = Some (File (Png fig))).
           rewrite E. exact Hnew.
        -- apply (Hpng q fig0). apply Hone; assumption.
      * intros q c0 Hq Hname. apply Hkeep; [| exact Hname]. apply Hone; [exact Hq |].
        intros E. rewrite name_anchorless, E in Hname.
        unfold fig_path in Hname.
        rewrite anchorless_child, last_last in Hname by apply target_name_not_anchor.
        rewrite endswith_target_name in Hname. discriminate.
    + inversion H; subst. apply render_dataset_err in Hstep. subst w'.
      split; [reflexivity |]. split; [| split; eauto].
      exists []. rewrite List.app_nil_r.
      split; [reflexivity |]. split; [simpl; lia |]. split; [discriminate | constructor].
Qed.

Lemma render_only_adds_figures_witness :
  let w := {| fs := Sample.root; opened := []; saved := [] |} in
  let agg := [("Berkeley", Sample.results_a); ("Cityscapes", Sample.results_a)] in
  opened (fst (render_all w Sample.args0 agg)) = []
  /\ resolve (fs (fst (render_all w Sample.args0 agg))) ["res"; "notes.txt"]
     = Some (File Blob).
Proof.
  intros w agg.
  destruct (render_only_adds_figures w (fst (render_all w Sample.args0 agg)) Sample.args0
              agg (snd (render_all w Sample.args0 agg)))
    as (Hopened & _ & _ & Hkeep).
  - destruct (render_all w Sample.args0 agg); reflexivity.
  - split; [exact Hopened |]. apply Hkeep; reflexivity.
Defined.

Lemma aggregate_one_keys (n : Z) (data : container) (agg agg' : aggregated) :
  aggregate_one n data agg = Ok agg' ->
  (NoDup (map fst agg) -> NoDup (map fst agg'))
  /\ forall ds, In ds (map fst agg') <-> In ds (map fst agg) \/ ds = dataset_name data.
Proof.
  intros H. destruct (aggregate_one_inv _ _ _ _ H) as (value & _ & ->).
  unfold agg_set. split; [apply od_set_keys_NoDup |].
  intros ds. rewrite od_set_keys.
  destruct (od_get (dataset_name data) agg) eqn:Hget.
  - split; [auto | intros [Hin | ->]; [exact Hin |]].
    apply od_get_in_keys. congruence.
  - rewrite in_app_iff. simpl. split; intros [Hin | Hin]; auto.
    + destruct Hin as [<- | []]. auto.
Qed.

Lemma aggregate_keys (w w' : world) (n : Z) (files_list : list path)
    (agg agg' : aggregated) :
  aggregate w n files_list agg = (w', Ok agg') ->
  (NoDup (map fst agg) -> NoDup (map fst agg'))
  /\ forall ds,
       In ds (map fst agg') <->
       In ds (map fst agg)
       \/ exists file data,
            In file files_list
            /\ resolve (fs w) file = Some (File (Pickle data))
            /\ dataset_name data = ds.
Proof.
  revert w agg. induction files_list as [| file rest IH]; intros w agg; simpl.
  - intros H. inversion H; subst. split; [auto |].
    intros ds. split; [auto | intros [Hin | (f & d & [] & _)]; exact Hin].
  - destruct (load_pickle w file) as [w1 [data | e]] eqn:Hload; [| discriminate].
    destruct (load_pickle_inv _ _ _ _ Hload) as (Hfs & _ & _ & _ & Hok).
    assert (Hres : resolve (fs w) file = Some (File (Pickle data))) by (apply Hok; reflexivity).
    destruct (aggregate_one n data agg) as [agg1 | e] eqn:Hone; [| discriminate].
    destruct (aggregate_one_keys _ _ _ _ Hone) as [Hnd1 Hkeys1].
    intros H. destruct (IH _ _ H) as [Hnd Hkeys]. split; [auto |].
    intros ds. rewrite Hkeys, Hkeys1, Hfs. split.
    + intros [[Hin | ->] | (f & d & Hin & Hr & Hd)].
      * left. exact Hin.
      * right. exists file, data. auto.
      * right. exists f, d. auto.
    + intros [Hin | (f & d & [<- | Hin] & Hr & Hd)].
      * left. left. exact Hin.
      * left. right. congruence.
      * right. exists f, d. auto.
Qed.

Lemma aggregate_frame (w w' : world) (n : Z) (files_list : list path)
    (agg : aggregated) (r : res aggregated) :
  aggregate w n files_list agg = (w', r) -> fs w' = fs w /\ saved w' = saved w.
Proof.
  revert w agg. induction files_list as [| file rest IH]; intros w agg; simpl.
  - intros H. inversion H; subst. split; reflexivity.
  - destruct (load_pickle w file) as [w1 [data | e]] eqn:Hload;
      destruct (load_pickle_inv _ _ _ _ Hload) as (Hfs & Hsaved & _).
    + destruct (aggregate_one n data agg) as [agg1 | e].
      * intros H. apply IH in H. destruct H as [H1 H2]. split; congruence.
      * intros H. inversion H; subst. split; assumption.
    + intros H. inversion H; subst. split; assumption.
Qed.

(** X5. A run that succeeds has saved exactly one figure for each distinct
    dataset name found in the containers it resolved. *)
Theorem one_figure_per_dataset (root : node) (args : Args) (cfg : Cfg) (w : world) :
  main root args cfg = (w, Ok tt) ->
  exists files_list names,
    get_files_list root args cfg = Ok files_list
    /\ NoDup names
    /\ List.length (saved w) = List.length names
    /\ forall ds,
         In ds names <->
         exists file data,
           In file files_list
           /\ resolve root file = Some (File (Pickle data))
           /\ dataset_name data = ds.
Proof.
  unfold main. destruct (get_files_list root args cfg) as [files_list | e]; [| discriminate].
  destruct (aggregate _ _ _ _) as [w1 [agg | e]] eqn:Hagg; [| discriminate].
  intros Hrender.
  destruct (aggregate_keys _ _ _ _ _ _ Hagg) as [Hnd Hkeys].
  destruct (render_all_saved _ _ _ _ Hrender) as (figs & Hsaved & Hlen).
  destruct (aggregate_frame _ _ _ _ _ _ Hagg) as [_ Hfresh]. simpl in Hfresh.
  exists files_list, (map fst agg). split; [reflexivity |].
  split; [apply Hnd; constructor |]. split.
  - rewrite Hsaved, Hfresh, length_map. simpl. exact Hlen.
  - intros ds. rewrite Hkeys. simpl. split; [intros [[] | H]; exact H | auto].
Qed.

Lemma one_figure_per_dataset_witness :
  exists files_list names,
    get_files_list Sample.root (Sample.with_folder "res" ["GrabCut"; "Berkeley"]) Sample.cfg
    = Ok files_list
    /\ NoDup names
    /\ List.length
         (saved (fst (main Sample.root (Sample.with_folder "res" ["GrabCut"; "Berkeley"])
                           Sample.cfg)))
       = List.length names
    /\ forall ds,
         In ds names <->
         exists file data,
           In file files_list
           /\ resolve Sample.root file = Some (File (Pickle data))
           /\ dataset_name data = ds.
Proof.
  apply (one_figure_per_dataset Sample.root
           (Sample.with_folder "res" ["GrabCut"; "Berkeley"]) Sample.cfg).
  vm_compute. reflexivity.
Defined.

(** ** Curves and their legend *)

(** X6. A curve can be drawn exactly when the averaged sequence, once
    truncated, has at least two clicks and the model is none of those whose
    color in the table is the empty text: with fewer clicks the loop over
    models raises a [ValueError] ([min] of nothing, or an area over fewer
    than two points), with such a model the plot call refuses the color with
    a [ValueError], and the 0-d average of an empty container fails as
    well. *)
Theorem curve_needs_two_clicks (n : Z) (name_of_model : string) (v : list Q) :
  ((2 <= truncated_length n (List.length v))%nat ->
   ~ In name_of_model colorless_models ->
   exists c, model_curve n name_of_model (Vec v) = Ok c
             /\ values c = map (fun q => q * 100) (truncate_ious n v))
  /\ ((truncated_length n (List.length v) < 2)%nat \/ In name_of_model colorless_models ->
      exists msg, model_curve n name_of_model (Vec v) = Err (ValueError msg))
  /\ exists e, model_curve n name_of_model Scalar_nan = Err e.
Proof.
  split; [| split].
  - intros Hlen Hcolor.
    destruct (model_curve_drawn n name_of_model v) as (c & Hc & Hval & _);
      [rewrite truncate_ious_length; exact Hlen | exact Hcolor |].
    exists c. split; assumption.
  - intros Hbad. unfold model_curve. rewrite truncate_results_vec. cbn [bind].
    set (sv := map (fun q => q * 100) (truncate_ious n v)).
    assert (Hsv : List.length sv = truncated_length n (List.length v))
      by (unfold sv; rewrite length_map; apply truncate_ious_length).
    destruct sv as [| a sv'] eqn:E.
    + simpl. eexists. reflexivity.
    + cbn [py_min py_max bind]. rewrite <- E.
      destruct (Nat.lt_ge_cases (List.length sv) 2) as [Hshort | Hlong].
      * destruct (normalized_auc_short sv Hshort) as [msg Hmsg].
        rewrite Hmsg. simpl. eexists. reflexivity.
      * destruct Hbad as [Hlen | Hcolor]; [rewrite E in Hlong; lia |].
        rewrite normalized_auc_two by exact Hlong. cbn [bind].
        fold (legend_label name_of_model).
        rewrite (plt_plot_refuses _ Hcolor). simpl. eexists. reflexivity.
  - unfold model_curve, truncate_results.
    destruct (negb (n =? -1)%Z); simpl; eexists; reflexivity.
Qed.

Lemma curve_needs_two_clicks_witness :
  (exists c, model_curve 2 "m" (Vec [3 # 8; 5 # 8; 7 # 8]) = Ok c
             /\ values c = map (fun q => q * 100) (truncate_ious 2 [3 # 8; 5 # 8; 7 # 8]))
  /\ (exists msg, model_curve 1 "m" (Vec [3 # 8; 5 # 8; 7 # 8]) = Err (ValueError msg))
  /\ exists msg, model_curve 2 "sbd_cdnet_resnet34_CDNet" (Vec [3 # 8; 5 # 8; 7 # 8])
                 = Err (ValueError msg).
Proof.
  split; [| split].
  - apply (curve_needs_two_clicks 2 "m" [3 # 8; 5 # 8; 7 # 8]).
    + vm_compute. lia.
    + simpl. intros [H | [H | [H | [H | []]]]]; discriminate H.
  - apply (curve_needs_two_clicks 1 "m" [3 # 8; 5 # 8; 7 # 8]). left. vm_compute. lia.
  - apply (curve_needs_two_clicks 2 "sbd_cdnet_resnet34_CDNet" [3 # 8; 5 # 8; 7 # 8]).
    right. simpl. auto.
Defined.

(** X9. The milestone values reported for a curve are read inside the
    sequence: each is the value at one of the clicks 1, 3, 5, 10, 20 that the
    sequence has, and every such click that the sequence has is reported. *)
Theorem milestones_within_curve
    (n : Z) (name_of_model : string) (model_results : ndarray) (c : curve) :
  model_curve n name_of_model model_results = Ok c ->
  Forall (fun m => In (fst m) [1; 3; 5; 10; 20]%nat
                   /\ (1 <= fst m <= List.length (values c))%nat
                   /\ snd m = nth (fst m - 1) (values c) 0)
         (milestones c)
  /\ forall click_id,
       In click_id [1; 3; 5; 10; 20]%nat ->
       (click_id <= List.length (values c))%nat ->
       In click_id (map fst (milestones c)).
Proof.
  unfold model_curve.
  destruct (truncate_results n model_results) as [[| v] | e]; cbn [bind]; try discriminate.
  set (sv := map (fun q => q * 100) v).
  destruct (py_min sv) as [lo | e]; [| discriminate].
  destruct (py_max sv) as [hi | e]; [| discriminate]. cbn [bind].
  destruct (normalized_auc sv) as [a | e]; [| discriminate]. cbn [bind].
  destruct (plt_plot _) as [[] | e]; [| discriminate]. cbn [bind].
  remember (filter (fun click_id => (click_id <=? List.length sv)%nat)
                   [1; 3; 5; 10; 20]%nat) as ids eqn:Hids.
  intros H. injection H as <-. cbn [milestones values]. split.
  - apply Forall_forall. intros m Hm. apply in_map_iff in Hm.
    destruct Hm as (k & <- & Hk). rewrite Hids in Hk.
    apply filter_In in Hk. destruct Hk as [Hin Hle].
    apply Nat.leb_le in Hle. cbn [fst snd]. split; [exact Hin |]. split; [| reflexivity].
    split; [| exact Hle]. simpl in Hin. lia.
  - intros k Hin Hle. rewrite map_map. cbn [fst]. rewrite map_id, Hids.
    apply filter_In. split; [exact Hin | apply Nat.leb_le; exact Hle].
Qed.

Lemma milestones_within_curve_witness :
  exists c,
    model_curve (-1) "m" (Vec [3 # 8; 5 # 8; 7 # 8]) = Ok c
    /\ In 3%nat (map fst (milestones c)).
Proof.
  destruct (model_curve (-1) "m" (Vec [3 # 8; 5 # 8; 7 # 8])) as [c | e] eqn:E;
    [| vm_compute in E; discriminate E].
  exists c. split; [reflexivity |].
  apply (milestones_within_curve _ _ _ _ E).
  - simpl. auto.
  - vm_compute in E. injection E as <-. simpl. lia.
Defined.

(** ** More on the input resolver *)

Lemma filter_all {A : Type} (f : A -> bool) (l : list A) :
  (forall x, In x l -> f x = true) -> filter f l = l.
Proof.
  induction l as [| a l IH]; intros H; simpl; [reflexivity |].
  rewrite (H a) by (left; reflexivity). f_equal. apply IH.
  intros x Hx. apply H. right. exact Hx.
Qed.

Lemma endswith_spec (suf s : string) :
  Str.endswith suf s = true <-> exists a, s = (a ++ suf)%string.
Proof.
  split.
  - induction s as [| c s IH]; cbn [Str.endswith]; rewrite orb_true_iff.
    + intros [H | H]; [| discriminate]. apply String.eqb_eq in H. subst.
      exists EmptyString. reflexivity.
    + intros [H | H].
      * apply String.eqb_eq in H. subst. exists EmptyString. reflexivity.
      * destruct (IH H) as [a ->]. exists (String c a). reflexivity.
  - intros [a ->]. apply endswith_append.
Qed.

Lemma fnmatch_spec (pre suf nm : string) :
  fnmatch pre suf nm = true ->
  (exists b, nm = (pre ++ b)%string) /\ (exists a, nm = (a ++ suf)%string).
Proof.
  unfold fnmatch. rewrite !andb_true_iff. intros [[Hp Hs] _].
  split; [apply prefix_spec, Hp | apply endswith_spec, Hs].
Qed.

(** X11. In the directory modes the resolver returns only entries that sit
    directly in a searched directory and whose name ends in [.pickle]: the
    folder itself with [--folder], the [plots] subdirectory of one of the
    given directories with [--model-dirs]; nothing deeper is looked at. *)
Theorem directory_modes_list_pickles
    (root : node) (args : Args) (cfg : Cfg) (fl : list path) :
  get_files_list root args cfg = Ok fl ->
  (forall f, folder args = Some f ->
     Forall (fun p => exists nm,
                 p = Path f ++ [nm]
                 /\ In nm (scandir root (Path f))
                 /\ exists a, nm = (a ++ ".pickle")%string) fl)
  /\ (forall dirs, folder args = None -> files args = None ->
        model_dirs args = Some dirs ->
        Forall (fun p => exists d nm,
                    In d dirs
                    /\ p = joinpath (Path d) (Path "plots") ++ [nm]
                    /\ In nm (scandir root (joinpath (Path d) (Path "plots")))
                    /\ exists a, nm = (a ++ ".pickle")%string) fl).
Proof.
  intros Hget. destruct (get_files_list_inv _ _ _ _ Hget) as [src Hsrc].
  rewrite (get_files_list_bound _ _ _ _ Hsrc) in Hget. injection Hget as <-.
  split.
  - intros f Hf. unfold resolve_source in Hsrc. rewrite Hf in Hsrc. injection Hsrc as <-.
    apply Forall_forall. intros p Hp.
    apply sorted_in, filter_In in Hp. destruct Hp as [Hp _].
    apply glob_in in Hp. destruct Hp as (nm & -> & Hin & Hmatch).
    exists nm. split; [reflexivity |]. split; [exact Hin |].
    apply (fnmatch_spec _ _ _ Hmatch).
  - intros dirs H1 H2 H3. unfold resolve_source in Hsrc.
    rewrite H1, H2, H3 in Hsrc. injection Hsrc as <-.
    apply Forall_forall. intros p Hp.
    apply sorted_in, filter_In in Hp. destruct Hp as [Hp _].
    apply in_flat_map in Hp. destruct Hp as (d & Hd & Hp).
    apply glob_in in Hp. destruct Hp as (nm & -> & Hin & Hmatch).
    exists d, nm. split; [exact Hd |]. split; [reflexivity |]. split; [exact Hin |].
    apply (fnmatch_spec _ _ _ Hmatch).
Qed.

Lemma directory_modes_list_pickles_witness :
  Forall (fun p => exists nm,
              p = Path "res" ++ [nm]
              /\ In nm (scandir Sample.root (Path "res"))
              /\ exists a, nm = (a ++ ".pickle")%string)
         [["res"; "Berkeley_NoBRS.pickle"]; ["res"; "GrabCut_NoBRS.pickle"]].
Proof.
  apply (directory_modes_list_pickles Sample.root
           (Sample.with_folder "res" ["GrabCut"; "Berkeley"]) Sample.cfg); reflexivity.
Defined.

Lemma contains_empty (s : string) : Str.contains EmptyString s = true.
Proof. destruct s; reflexivity. Qed.

(** X12. An empty dataset substring matches every file: when [--datasets]
    holds one (a trailing or doubled comma leaves one after the split) and no
    [--mode] is given, the resolver returns the whole source, sorted. *)
Theorem empty_dataset_matches_all
    (root : node) (args : Args) (cfg : Cfg) (src : list path) :
  In EmptyString (datasets args) ->
  mode args = None ->
  resolve_source root args cfg = Ok (Some src) ->
  get_files_list root args cfg = Ok (sorted path_leb src).
Proof.
  intros Hin Hmode Hsrc. rewrite (get_files_list_bound _ _ _ _ Hsrc).
  rewrite filter_all; [reflexivity |].
  intros file _. unfold passes_filters. rewrite Hmode. simpl.
  unfold stem_has_any. apply existsb_exists.
  exists EmptyString. split; [exact Hin | apply contains_empty].
Qed.

Lemma empty_dataset_matches_all_witness :
  Str.split "," "SBD," = ["SBD"; EmptyString]
  /\ get_files_list Sample.root (Sample.with_folder "res" (Str.split "," "SBD,")) Sample.cfg
     = Ok (sorted path_leb (glob Sample.root ["res"] EmptyString ".pickle")).
Proof.
  split; [reflexivity |].
  apply (empty_dataset_matches_all Sample.root
           (Sample.with_folder "res" (Str.split "," "SBD,")) Sample.cfg).
  - right. left. reflexivity.
  - reflexivity.
  - reflexivity.
Defined.

Lemma strongly_sorted_unique (l l' : list path) :
  StronglySorted path_le l -> StronglySorted path_le l' ->
  Permutation l l' -> l = l'.
Proof.
  intros Hl. revert l'. induction Hl as [| a l Hs IH Ha]; intros l' Hl' Hp.
  - apply Permutation_nil in Hp. congruence.
  - destruct l' as [| b l'].
    + apply Permutation_sym, Permutation_nil in Hp. discriminate.
    + inversion Hl' as [| ? ? Hs' Hb]; subst.
      assert (a = b) as ->.
      { rewrite Forall_forall in Ha, Hb.
        assert (Hab : In a (b :: l')) by (eapply Permutation_in; [exact Hp | left; reflexivity]).
        assert (Hba : In b (a :: l))
          by (eapply Permutation_in; [apply Permutation_sym; exact Hp | left; reflexivity]).
        destruct Hab as [-> | Hab]; [reflexivity |].
        destruct Hba as [-> | Hba]; [reflexivity |].
        apply path_leb_antisym; [apply Ha, Hba | apply Hb, Hab]. }
      f_equal. apply IH; [exact Hs' |]. eapply Permutation_cons_inv. exact Hp.
Qed.

Lemma filter_perm {A : Type} (f : A -> bool) (l l' : list A) :
  Permutation l l' -> Permutation (filter f l) (filter f l').
Proof.
  induction 1 as [| x l l' _ IH | x y l | l l' l'' _ IH1 _ IH2]; simpl.
  - constructor.
  - destruct (f x); [apply perm_skip |]; exact IH.
  - destruct (f x), (f y); try apply Permutation_refl. apply perm_swap.
  - eapply Permutation_trans; eassumption.
Qed.

(** X13. The order in which [--files] are given is irrelevant: two command
    lines that name the same files in different orders resolve to the same
    list, hence to the same aggregation. *)
Theorem file_order_is_irrelevant
    (root : node) (args args' : Args) (cfg : Cfg) (given given' : list string) :
  folder args = None -> folder args' = None ->
  files args = Some given -> files args' = Some given' ->
  mode args' = mode args -> datasets args' = datasets args ->
  Permutation given given' ->
  get_files_list root args' cfg = get_files_list root args cfg.
Proof.
  intros Hf Hf' Hg Hg' Hmode Hds Hperm.
  assert (Hsrc : resolve_source root args cfg = Ok (Some (map Path given)))
    by (unfold resolve_source; rewrite Hf, Hg; reflexivity).
  assert (Hsrc' : resolve_source root args' cfg = Ok (Some (map Path given')))
    by (unfold resolve_source; rewrite Hf', Hg'; reflexivity).
  rewrite (get_files_list_bound _ _ _ _ Hsrc), (get_files_list_bound _ _ _ _ Hsrc').
  f_equal. apply strongly_sorted_unique; try apply sorted_paths_ordered.
  eapply Permutation_trans; [apply sorted_perm |].
  eapply Permutation_trans; [| apply Permutation_sym, sorted_perm].
  assert (Hpass : forall file, passes_filters args' file = passes_filters args file)
    by (intros file; unfold passes_filters; rewrite Hmode, Hds; reflexivity).
  rewrite (filter_ext _ _ Hpass).
  apply filter_perm, Permutation_map, Permutation_sym, Hperm.
Qed.

Lemma file_order_is_irrelevant_witness :
  get_files_list Sample.root
    (Sample.with_files ["res/GrabCut_NoBRS.pickle"; "res/Berkeley_NoBRS.pickle"]
                       None ["GrabCut"; "Berkeley"]) Sample.cfg
  = get_files_list Sample.root
      (Sample.with_files ["res/Berkeley_NoBRS.pickle"; "res/GrabCut_NoBRS.pickle"]
                         None ["GrabCut"; "Berkeley"]) Sample.cfg.
Proof.
  apply (file_order_is_irrelevant Sample.root
           (Sample.with_files ["res/Berkeley_NoBRS.pickle"; "res/GrabCut_NoBRS.pickle"]
                              None ["GrabCut"; "Berkeley"])
           (Sample.with_files ["res/GrabCut_NoBRS.pickle"; "res/Berkeley_NoBRS.pickle"]
                              None ["GrabCut"; "Berkeley"])
           Sample.cfg
           ["res/Berkeley_NoBRS.pickle"; "res/GrabCut_NoBRS.pickle"]
           ["res/GrabCut_NoBRS.pickle"; "res/Berkeley_NoBRS.pickle"]);
    try reflexivity.
  apply perm_swap.
Defined.

Lemma split_length (sep : ascii) (s : string) :
  List.length (Str.split sep s) = S (count_char sep s).
Proof.
  induction s as [| c s IH]; [reflexivity |].
  cbn [Str.split count_char]. destruct (Ascii.eqb c sep).
  - simpl. rewrite IH. reflexivity.
  - destruct (Str.split sep s) as [| w ws]; [discriminate |]. simpl in *. exact IH.
Qed.

Lemma exp_models_loop_app (root : node) (cfg : Cfg) (pre rest : list string)
    (acc : list path) :
  Forall (fun e => exists found, exp_model_files root cfg e = Ok found) pre ->
  exists acc', exp_models_loop root cfg (pre ++ rest) acc
               = exp_models_loop root cfg rest acc'.
Proof.
  intros Hpre. revert acc. induction Hpre as [| e pre [found He] _ IH]; intros acc; simpl.
  - exists acc. reflexivity.
  - rewrite He. simpl. apply IH.
Qed.

(** X14. An [--exp-models] entry must hold exactly one colon: the first entry
    that holds none, or more than one, stops the resolver with a
    [ValueError] when it unpacks the split, and nothing has been opened. *)
Theorem malformed_experiment_entry
    (root : node) (args : Args) (cfg : Cfg) (pre post : list string) (entry : string) :
  folder args = None -> files args = None -> model_dirs args = None ->
  exp_models args = Some (pre ++ entry :: post) ->
  Forall (fun e => exists found, exp_model_files root cfg e = Ok found) pre ->
  count_char ":" entry <> 1%nat ->
  exists msg,
    get_files_list root args cfg = Err (ValueError msg)
    /\ main root args cfg
       = ({| fs := root; opened := []; saved := [] |}, Err (ValueError msg)).
Proof.
  intros H1 H2 H3 H4 Hpre Hcolon.
  assert (Hentry : exp_model_files root cfg entry
                   = Err (ValueError "wrong number of values to unpack")).
  { unfold exp_model_files. pose proof (split_length ":" entry) as Hlen.
    destruct (Str.split ":" entry) as [| a [| b [| c l]]]; try reflexivity.
    simpl in Hlen. congruence. }
  exists "wrong number of values to unpack".
  assert (Hget : get_files_list root args cfg
                 = Err (ValueError "wrong number of values to unpack")).
  { unfold get_files_list, resolve_source. rewrite H1, H2, H3, H4.
    destruct (exp_models_loop_app root cfg pre (entry :: post) [] Hpre) as [acc' ->].
    simpl. rewrite Hentry. reflexivity. }
  split; [exact Hget |]. unfold main. rewrite Hget. reflexivity.
Qed.

Lemma malformed_experiment_entry_witness :
  exists msg,
    get_files_list Sample.root (Sample.with_exp_models ["sbd_a:ckpt"; "sbd_a"]) Sample.cfg
    = Err (ValueError msg).
Proof.
  destruct (malformed_experiment_entry Sample.root
              (Sample.with_exp_models ["sbd_a:ckpt"; "sbd_a"]) Sample.cfg
              ["sbd_a:ckpt"] [] "sbd_a") as (msg & Hget & _); try reflexivity.
  - repeat constructor. eexists. reflexivity.
  - simpl. discriminate.
  - exists msg. exact Hget.
Defined.

(** ** Preparing the output directory *)

Lemma od_set_twice {V : Type} (k : string) (v : V) (d : odict V) :
  od_set k v (od_set k v d) = od_set k v d.
Proof.
  induction d as [| [k0 v0] d IH]; simpl.
  - rewrite String.eqb_refl. reflexivity.
  - destruct (String.eqb_spec k k0) as [E | NE]; simpl.
    + rewrite String.eqb_refl. reflexivity.
    + destruct (String.eqb_spec k k0); [contradiction |]. rewrite IH. reflexivity.
Qed.

Lemma mkdir_p_cons (es : list (string * node)) (d : string) (p : list string) :
  mkdir_p (Dir es) (d :: p)
  = match mkdir_p (match od_get d es with Some n' => n' | None => Dir [] end) p with
    | Some n'' => Some (Dir (od_set d n'' es))
    | None => None
    end.
Proof. reflexivity. Qed.

Lemma mkdir_p_makes_dir (n n' : node) (p : list string) :
  mkdir_p n p = Some n' -> exists es, walk n' p = Some (Dir es).
Proof.
  revert n n'. induction p as [| d p IH]; intros n n' H.
  - destruct n as [c | es]; [discriminate |]. simpl in H. injection H as <-.
    exists es. reflexivity.
  - destruct n as [c | es]; [discriminate |]. rewrite mkdir_p_cons in H.
    destruct (mkdir_p _ p) as [n'' |] eqn:Hin; [| discriminate].
    injection H as <-. cbn [walk]. rewrite od_get_set_same. eapply IH. exact Hin.
Qed.

Lemma mkdir_p_keeps_files (n n' : node) (p q : list string) (c : content) :
  mkdir_p n p = Some n' -> walk n q = Some (File c) -> walk n' q = Some (File c).
Proof.
  revert n n' q. induction p as [| d p IH]; intros n n' q H Hq.
  - destruct n as [c0 | es]; [discriminate |]. simpl in H. injection H as <-. exact Hq.
  - destruct n as [c0 | es]; [discriminate |]. rewrite mkdir_p_cons in H.
    destruct (mkdir_p _ p) as [n'' |] eqn:Hin; [| discriminate].
    injection H as <-.
    destruct q as [| a q]; [discriminate |].
    cbn [walk] in *. destruct (od_get a es) as [na |] eqn:Ha; [| discriminate].
    destruct (String.eqb_spec a d) as [-> | NE].
    + rewrite od_get_set_same. rewrite Ha in Hin. eapply IH; eassumption.
    + rewrite od_get_set_other by exact NE. rewrite Ha. exact Hq.
Qed.

Lemma mkdir_p_again (n n' : node) (p : list string) :
  mkdir_p n p = Some n' -> mkdir_p n' p = Some n'.
Proof.
  revert n n'. induction p as [| d p IH]; intros n n' H.
  - destruct n as [c | es]; [discriminate |]. simpl in H. injection H as <-. reflexivity.
  - destruct n as [c | es]; [discriminate |]. rewrite mkdir_p_cons in H.
    destruct (mkdir_p _ p) as [n'' |] eqn:Hin; [| discriminate].
    injection H as <-. rewrite mkdir_p_cons, od_get_set_same.
    rewrite (IH _ _ Hin), od_set_twice. reflexivity.
Qed.

(** X15. When [parse_args] returns, the output directory exists, every file
    that was on disk is still there unchanged, the list of dataset
    substrings is not empty, and parsing the same command line again finds
    the directory in place and changes nothing. *)
Theorem parse_args_prepares_output
    (root root' : node) (ns : Namespace) (cfg : Cfg) (args : Args) :
  parse_args root ns cfg = Ok (root', args) ->
  is_dir root' (plots_path args) = true
  /\ (forall q c, resolve root q = Some (File c) -> resolve root' q = Some (File c))
  /\ datasets args <> []
  /\ n_clicks args = ns_n_clicks ns
  /\ parse_args root' ns cfg = Ok (root', args).
Proof.
  unfold parse_args.
  set (pp := if String.eqb (ns_plots_path ns) EmptyString
             then joinpath (EXPS_PATH cfg) (Path "evaluation_logs/iou_analysis")
             else Path (ns_plots_path ns)).
  change (if is_absolute pp then tl pp else pp) with (anchorless pp).
  destruct (mkdir_p root (anchorless pp)) as [made |] eqn:Hmk; [| discriminate].
  intros H. injection H as <- <-. cbn [plots_path datasets n_clicks].
  split; [| split; [| split; [| split]]].
  - unfold is_dir, resolve. change (if is_absolute pp then tl pp else pp) with (anchorless pp).
    destruct (mkdir_p_makes_dir _ _ _ Hmk) as [es ->]. reflexivity.
  - intros q c Hq. eapply mkdir_p_keeps_files; eassumption.
  - intros E. pose proof (split_length "," (ns_datasets ns)) as Hlen.
    rewrite E in Hlen. discriminate.
  - reflexivity.
  - rewrite (mkdir_p_again _ _ _ Hmk). reflexivity.
Qed.

Lemma parse_args_prepares_output_witness :
  exists root' args,
    parse_args Sample.root Sample.namespace0 Sample.cfg = Ok (root', args)
    /\ is_dir root' (plots_path args) = true
    /\ resolve root' ["res"; "notes.txt"] = Some (File Blob).
Proof.
  destruct (parse_args Sample.root Sample.namespace0 Sample.cfg) as [[root' args] | e] eqn:E;
    [| vm_compute in E; discriminate E].
  destruct (parse_args_prepares_output _ _ _ _ _ E) as (Hdir & Hkeep & _).
  exists root', args. split; [reflexivity |]. split; [exact Hdir |].
  apply Hkeep. reflexivity.
Defined.

(** ** Successive plots *)

Lemma target_name_injective (ds : string) (i j : nat) :
  (i < 1000)%nat -> (j < 1000)%nat ->
  target_name ds (Z.of_nat i) = target_name ds (Z.of_nat j) -> i = j.
Proof.
  intros Hi Hj E.
  destruct (Nat.lt_trichotomy i j) as [Hlt | [Heq | Hgt]]; [| exact Heq |].
  - pose proof (target_name_increasing ds i j Hlt Hj) as Hcmp.
    rewrite E, string_compare_refl in Hcmp. discriminate.
  - pose proof (target_name_increasing ds j i Hgt Hi) as Hcmp.
    rewrite E, string_compare_refl in Hcmp. discriminate.
Qed.

Lemma first_plot_chosen (root : node) (plots : path) (ds : string) :
  filter (fnmatch (ds ++ "_") ".png") (scandir root plots) = [] ->
  get_target_file_path root plots ds = Ok (plots ++ [target_name ds 0]).
Proof.
  intros Hnone. unfold get_target_file_path, glob. rewrite Hnone. reflexivity.
Qed.

Lemma next_plot_chosen (root : node) (plots : path) (ds : string) (i : nat) :
  canonical_plots root plots ds ->
  (i < 999)%nat ->
  In (target_name ds (Z.of_nat i)) (scandir root plots) ->
  (forall j, (j < 999)%nat ->
             In (target_name ds (Z.of_nat j)) (scandir root plots) -> (j <= i)%nat) ->
  get_target_file_path root plots ds = Ok (plots ++ [target_name ds (Z.of_nat (S i))]).
Proof.
  intros Hcanon Hi Hin Hmax.
  destruct (last_plot_is_highest root plots ds i Hcanon Hi Hin Hmax)
    as (p & rest & Hsorted & Hlast).
  unfold get_target_file_path. rewrite Hsorted, Hlast.
  rewrite index_of_target_name by lia. cbn [bind].
  replace (Z.of_nat i + 1)%Z with (Z.of_nat (S i)) by lia. reflexivity.
Qed.

(** The highest index among the plots of a canonical directory. *)
Lemma canonical_highest (root : node) (plots : path) (ds : string) :
  canonical_plots root plots ds ->
  filter (fnmatch (ds ++ "_") ".png") (scandir root plots) <> [] ->
  exists i, (i < 999)%nat
            /\ In (target_name ds (Z.of_nat i)) (scandir root plots)
            /\ forall j, (j < 999)%nat ->
                 In (target_name ds (Z.of_nat j)) (scandir root plots) -> (j <= i)%nat.
Proof.
  intros Hcanon Hsome.
  set (previous_plots := sorted path_leb (glob root plots (ds ++ "_") ".png")).
  assert (Hne : previous_plots <> []).
  { intros E. apply sorted_nil_inv in E. unfold glob in E.
    apply map_eq_nil in E. contradiction. }
  pose proof (last_in previous_plots [] Hne) as Hlast.
  apply sorted_in, glob_in in Hlast. destruct Hlast as (nm & E & Hnm & Hmatch).
  destruct (Hcanon nm Hnm Hmatch) as (i & Hi & ->).
  exists i. split; [exact Hi |]. split; [exact Hnm |].
  intros j Hj Hin.
  destruct (Nat.le_gt_cases j i) as [Hle | Hgt]; [exact Hle | exfalso].
  assert (Hle : path_le (plots ++ [target_name ds (Z.of_nat j)]) (last previous_plots [])).
  { apply (strongly_sorted_last path_leb);
      [apply path_leb_refl | apply sorted_paths_ordered |].
    apply sorted_in, glob_in. exists (target_name ds (Z.of_nat j)).
    split; [reflexivity |]. split; [exact Hin | apply fnmatch_target_name]. }
  unfold path_le, path_leb in Hle. rewrite E, path_compare_children in Hle.
  rewrite String.compare_antisym in Hle.
  rewrite (target_name_increasing ds i j) in Hle by lia. discriminate.
Qed.

(** X16. For a display name that the glob pattern takes literally, in an
    output directory whose plots of the dataset all carry a three-digit index
    below 999, choosing the next file name never fails and never picks a name
    that is already there: no earlier plot is overwritten. *)
Theorem fresh_plot_name (root : node) (plots : path) (ds : string) :
  plain_pattern ds = true ->
  canonical_plots root plots ds ->
  exists i,
    (i <= 999)%nat
    /\ get_target_file_path root plots ds = Ok (plots ++ [target_name ds (Z.of_nat i)])
    /\ ~ In (target_name ds (Z.of_nat i)) (scandir root plots).
Proof.
  intros _ Hcanon.
  destruct (filter (fnmatch (ds ++ "_") ".png") (scandir root plots)) as [| nm0 rest] eqn:Hf.
  - exists 0%nat. split; [lia |]. split; [apply first_plot_chosen; exact Hf |].
    intros Hin.
    assert (Hin' : In (target_name ds (Z.of_nat 0))
                      (filter (fnmatch (ds ++ "_") ".png") (scandir root plots)))
      by (apply filter_In; split; [exact Hin | apply fnmatch_target_name]).
    rewrite Hf in Hin'. destruct Hin'.
  - destruct (canonical_highest root plots ds Hcanon) as (i & Hi & Hin & Hmax);
      [rewrite Hf; discriminate |].
    exists (S i). split; [lia |].
    split; [apply next_plot_chosen; assumption |].
    intros Hnew.
    destruct (Hcanon _ Hnew (fnmatch_target_name ds _)) as (j & Hj & E).
    apply target_name_injective in E; [| lia | lia]. subst j.
    specialize (Hmax (S i) Hj Hnew). lia.
Qed.

Lemma fresh_plot_name_witness :
  exists i,
    (i <= 999)%nat
    /\ get_target_file_path Sample.two_plots ["out"] "GrabCut"
       = Ok (["out"] ++ [target_name "GrabCut" (Z.of_nat i)])
    /\ ~ In (target_name "GrabCut" (Z.of_nat i)) (scandir Sample.two_plots ["out"]).
Proof.
  apply (fresh_plot_name Sample.two_plots ["out"] "GrabCut"); [reflexivity |].
  intros nm Hin Hmatch. simpl in Hin.
  destruct Hin as [<- | [<- | [<- | []]]].
  - exists 1%nat. split; [lia | reflexivity].
  - discriminate.
  - exists 0%nat. split; [lia | reflexivity].
Defined.

Lemma put_listing (n n' : node) (d : list string) (nm : string) (c : content) :
  put n (d ++ [nm]) c = Some n' ->
  exists es, walk n d = Some (Dir es)
             /\ walk n' d = Some (Dir (od_set nm (File c) es)).
Proof.
  revert n n'. induction d as [| a d IH]; intros n n' H.
  - destruct n as [c0 | es]; [discriminate |]. simpl in H.
    exists es. split; [reflexivity |].
    destruct (od_get nm es) as [[c1 | es1] |]; inversion H; reflexivity.
  - destruct n as [c0 | es]; [discriminate |].
    change ((a :: d) ++ [nm]) with (a :: (d ++ [nm])) in H.
    destruct (d ++ [nm]) as [| x p] eqn:E; [destruct d; discriminate |].
    rewrite put_deeper in H.
    destruct (od_get a es) as [na |] eqn:Ha; [| discriminate].
    destruct (put na (x :: p) c) as [nd |] eqn:Hput; [| discriminate].
    injection H as <-. cbn [walk]. rewrite Ha, od_get_set_same.
    apply IH. exact Hput.
Qed.

Lemma scandir_after_put (root root' : node) (plots : path) (nm : string) (c : content) :
  is_anchor nm = false ->
  put root (anchorless (plots ++ [nm])) c = Some root' ->
  ~ In nm (scandir root plots) ->
  scandir root' plots = scandir root plots ++ [nm].
Proof.
  intros Hnm Hput Hnew. rewrite anchorless_child in Hput by exact Hnm.
  destruct (put_listing _ _ _ _ _ Hput) as (es & Hold & Hnow).
  unfold scandir, resolve in *.
  change (if is_absolute plots then tl plots else plots) with (anchorless plots) in *.
  rewrite Hold in Hnew. rewrite Hold, Hnow, od_set_keys.
  destruct (od_get nm es) eqn:Hget; [| reflexivity].
  exfalso. apply Hnew, od_get_in_keys. congruence.
Qed.

(** What the index chosen in a canonical directory says about it. *)
Lemma chosen_index_is_fresh (root : node) (plots : path) (ds : string) (i : nat) :
  canonical_plots root plots ds ->
  (i <= 999)%nat ->
  get_target_file_path root plots ds = Ok (plots ++ [target_name ds (Z.of_nat i)]) ->
  ~ In (target_name ds (Z.of_nat i)) (scandir root plots)
  /\ forall j, (j < 999)%nat ->
       In (target_name ds (Z.of_nat j)) (scandir root plots) -> (j < i)%nat.
Proof.
  intros Hcanon Hi Hget.
  destruct (filter (fnmatch (ds ++ "_") ".png") (scandir root plots)) as [| nm0 rest] eqn:Hf.
  - assert (Hnone : forall z, ~ In (target_name ds z) (scandir root plots)).
    { intros z Hin.
      assert (Hin' : In (target_name ds z)
                        (filter (fnmatch (ds ++ "_") ".png") (scandir root plots)))
        by (apply filter_In; split; [exact Hin | apply fnmatch_target_name]).
      rewrite Hf in Hin'. destruct Hin'. }
    split; [apply Hnone |]. intros j _ Hin. exfalso. exact (Hnone _ Hin).
  - destruct (canonical_highest root plots ds Hcanon) as (m & Hm & Hin & Hmax);
      [rewrite Hf; discriminate |].
    rewrite (next_plot_chosen root plots ds m Hcanon Hm Hin Hmax) in Hget.
    injection Hget as E. apply app_inv_head in E. injection E as E.
    change (Z.pos (Pos.of_succ_nat m)) with (Z.of_nat (S m)) in E.
    apply target_name_injective in E; [| lia | lia]. subst i.
    split.
    + intros Hnew.
      destruct (Hcanon _ Hnew (fnmatch_target_name ds _)) as (j & Hj & E).
      apply target_name_injective in E; [| lia | lia]. subst j.
      specialize (Hmax (S m) Hj Hnew). lia.
    + intros j Hj Hinj. specialize (Hmax j Hj Hinj). lia.
Qed.

(** X17. For a display name that the glob pattern takes literally, saving a
    figure under the name chosen in a canonical directory adds exactly that
    name to the directory, keeps the directory canonical, and makes the next
    choice the following index: successive renders of a dataset count up by
    one. *)
Theorem successive_plots_count_up
    (w w' : world) (plots : path) (ds : string) (i : nat) (fig : figure) :
  plain_pattern ds = true ->
  canonical_plots (fs w) plots ds ->
  (i < 998)%nat ->
  get_target_file_path (fs w) plots ds = Ok (plots ++ [target_name ds (Z.of_nat i)]) ->
  savefig w (plots ++ [target_name ds (Z.of_nat i)]) fig = (w', Ok tt) ->
  scandir (fs w') plots = scandir (fs w) plots ++ [target_name ds (Z.of_nat i)]
  /\ canonical_plots (fs w') plots ds
  /\ get_target_file_path (fs w') plots ds
     = Ok (plots ++ [target_name ds (Z.of_nat (S i))]).
Proof.
  intros _ Hcanon Hi Hget Hsave.
  assert (Hi' : (i <= 999)%nat) by lia.
  destruct (chosen_index_is_fresh _ _ _ _ Hcanon Hi' Hget) as [Hnew Hbelow].
  assert (Hscan : scandir (fs w') plots
                  = scandir (fs w) plots ++ [target_name ds (Z.of_nat i)]).
  { unfold savefig in Hsave.
    change (if is_absolute (plots ++ [target_name ds (Z.of_nat i)])
            then tl (plots ++ [target_name ds (Z.of_nat i)])
            else plots ++ [target_name ds (Z.of_nat i)])
      with (anchorless (plots ++ [target_name ds (Z.of_nat i)])) in Hsave.
    destruct (put _ _ _) as [root' |] eqn:Hput; [| discriminate].
    injection Hsave as <-. cbn [fs].
    eapply scandir_after_put; [apply target_name_not_anchor | exact Hput | exact Hnew]. }
  assert (Hcanon' : canonical_plots (fs w') plots ds).
  { intros nm Hin Hmatch. rewrite Hscan in Hin. apply in_app_or in Hin.
    destruct Hin as [Hin | [<- | []]]; [apply Hcanon; assumption |].
    exists i. split; [lia | reflexivity]. }
  split; [exact Hscan |]. split; [exact Hcanon' |].
  apply next_plot_chosen; [exact Hcanon' | lia | |].
  - rewrite Hscan. apply in_or_app. right. left. reflexivity.
  - intros j Hj Hin. rewrite Hscan in Hin. apply in_app_or in Hin.
    destruct Hin as [Hin | [E | []]].
    + specialize (Hbelow j Hj Hin). lia.
    + apply target_name_injective in E; [lia | lia | lia].
Qed.

Lemma successive_plots_count_up_witness :
  let w := {| fs := Sample.two_plots; opened := []; saved := [] |} in
  let fig := {| title := "GrabCut"; curves := []; yticks := (80, 100, 2)%Z; xticks := 0 |} in
  get_target_file_path
    (fs (fst (savefig w (["out"] ++ [target_name "GrabCut" (Z.of_nat 2)]) fig)))
    ["out"] "GrabCut"
  = Ok (["out"] ++ [target_name "GrabCut" (Z.of_nat 3)]).
Proof.
  intros w fig.
  apply (successive_plots_count_up w
           (fst (savefig w (["out"] ++ [target_name "GrabCut" (Z.of_nat 2)]) fig))
           ["out"] "GrabCut" 2 fig).
  - reflexivity.
  - intros nm Hin Hmatch. simpl in Hin.
    destruct Hin as [<- | [<- | [<- | []]]].
    + exists 1%nat. split; [lia | reflexivity].
    + discriminate.
    + exists 0%nat. split; [lia | reflexivity].
  - lia.
  - reflexivity.
  - reflexivity.
Defined.

(** ** Truncation and averaging *)







(** ** Indices in file names *)

Lemma rstrip_digits (d : Decimal.uint) :
  Str.rstrip (NilEmpty.string_of_uint d) = NilEmpty.string_of_uint d.
Proof.
  induction d as [| d IH | d IH | d IH | d IH | d IH | d IH | d IH | d IH | d IH | d IH];
    cbn [NilEmpty.string_of_uint Str.rstrip]; [reflexivity | ..];
    rewrite IH; destruct (NilEmpty.string_of_uint d); reflexivity.
Qed.

Lemma lstrip_digits (d : Decimal.uint) :
  Str.lstrip (NilEmpty.string_of_uint d) = NilEmpty.string_of_uint d.
Proof. destruct d; reflexivity. Qed.

Lemma digits_not_empty (d : Decimal.uint) :
  d <> Decimal.Nil -> NilEmpty.string_of_uint d <> EmptyString.
Proof. destruct d; [contradiction | ..]; discriminate. Qed.

Lemma int_digits (d : Decimal.uint) :
  d <> Decimal.Nil ->
  int (NilEmpty.string_of_uint d) = Ok (Z.of_N (N.of_uint d)).
Proof.
  intros Hd. unfold int, Str.strip. rewrite lstrip_digits, rstrip_digits.
  pose proof (NilEmpty.usu d) as Husu.
  destruct d; [contradiction | ..];
    cbn [NilEmpty.string_of_uint] in *;
    unfold NilZero.int_of_string, NilZero.uint_of_string;
    cbn [Ascii.eqb Bool.eqb]; rewrite Husu; reflexivity.
Qed.

Lemma int_minus_digits (d : Decimal.uint) :
  d <> Decimal.Nil ->
  int (String "-" (NilEmpty.string_of_uint d)) = Ok (- Z.of_N (N.of_uint d))%Z.
Proof.
  intros Hd. unfold int, Str.strip.
  assert (Hstrip : Str.rstrip (Str.lstrip (String "-" (NilEmpty.string_of_uint d)))
                   = String "-" (NilEmpty.string_of_uint d)).
  { cbn [Str.lstrip Str.rstrip]. change (Str.is_space "-") with false. cbv iota.
    cbn [Str.rstrip]. rewrite rstrip_digits.
    destruct (NilEmpty.string_of_uint d) eqn:E; [| reflexivity].
    exfalso. exact (digits_not_empty d Hd E). }
  rewrite Hstrip.
  pose proof (NilEmpty.usu d) as Husu.
  unfold NilZero.int_of_string, NilZero.uint_of_string.
  cbn [Ascii.eqb Bool.eqb].
  destruct (NilEmpty.string_of_uint d) eqn:E; [exfalso; exact (digits_not_empty d Hd E) |].
  rewrite Husu. reflexivity.
Qed.

Lemma pad_zeros_string (k : nat) (d : Decimal.uint) :
  (Str.zeros k ++ NilEmpty.string_of_uint d)%string = NilEmpty.string_of_uint (pad_zeros k d).
Proof. induction k as [| k IH]; simpl; [reflexivity | rewrite IH; reflexivity]. Qed.

Lemma pad_zeros_value (k : nat) (d : Decimal.uint) : N.of_uint (pad_zeros k d) = N.of_uint d.
Proof. induction k as [| k IH]; simpl; [reflexivity | exact IH]. Qed.

Lemma pad_zeros_not_nil (k : nat) (d : Decimal.uint) :
  d <> Decimal.Nil -> pad_zeros k d <> Decimal.Nil.
Proof. destruct k; simpl; [auto | discriminate]. Qed.

Lemma to_uint_not_nil (n : N) : N.to_uint n <> Decimal.Nil.
Proof.
  intros E. pose proof (DecimalN.Unsigned.of_to n) as H. rewrite E in H.
  simpl in H. subst n. discriminate E.
Qed.

Lemma zeros_length (k : nat) : String.length (Str.zeros k) = k.
Proof. induction k as [| k IH]; simpl; [reflexivity | rewrite IH; reflexivity]. Qed.

Lemma split_digits (d : Decimal.uint) :
  Str.split "_" (NilEmpty.string_of_uint d) = [NilEmpty.string_of_uint d].
Proof.
  induction d as [| d IH | d IH | d IH | d IH | d IH | d IH | d IH | d IH | d IH | d IH];
    cbn [NilEmpty.string_of_uint Str.split]; [reflexivity | ..];
    rewrite IH; reflexivity.
Qed.

(** The text of an index: an optional sign and a numeral, zeros included. *)
Lemma format_03d_shape (z : Z) :
  exists d, d <> Decimal.Nil
            /\ N.of_uint d = Z.abs_N z
            /\ format_03d z
               = if (z <? 0)%Z then String "-" (NilEmpty.string_of_uint d)
                 else NilEmpty.string_of_uint d.
Proof.
  unfold format_03d.
  pose proof (to_uint_not_nil (Z.abs_N z)) as Hnil.
  assert (Hdigits : NilZero.string_of_uint (N.to_uint (Z.abs_N z))
                    = NilEmpty.string_of_uint (N.to_uint (Z.abs_N z)))
    by (destruct (N.to_uint (Z.abs_N z)); [contradiction | ..]; reflexivity).
  rewrite Hdigits.
  destruct (z <? 0)%Z.
  - eexists. split; [| split; [| rewrite pad_zeros_string; reflexivity]].
    + apply pad_zeros_not_nil. exact Hnil.
    + rewrite pad_zeros_value. apply DecimalN.Unsigned.of_to.
  - eexists. split; [| split; [| rewrite pad_zeros_string; reflexivity]].
    + apply pad_zeros_not_nil. exact Hnil.
    + rewrite pad_zeros_value. apply DecimalN.Unsigned.of_to.
Qed.

(** X19. Whatever the index, the name written for it is read back to the
    same index by the next call: the text has at least three characters, and
    the part of the stem after the last underscore parses to the index, also
    beyond three digits. *)
Theorem index_round_trip (plots : path) (ds : string) (index : Z) :
  int (format_03d index) = Ok index
  /\ (3 <= String.length (format_03d index))%nat
  /\ int (last (Str.split "_" (stem (plots ++ [target_name ds index]))) EmptyString)
     = Ok index.
Proof.
  assert (Hint : int (format_03d index) = Ok index).
  { destruct (format_03d_shape index) as (d & Hd & Hval & ->).
    destruct (Z.ltb_spec index 0) as [Hneg | Hpos].
    - rewrite int_minus_digits by exact Hd. rewrite Hval. f_equal. lia.
    - rewrite int_digits by exact Hd. rewrite Hval. f_equal. lia. }
  assert (Hsplit : Str.split "_" (format_03d index) = [format_03d index]).
  { destruct (format_03d_shape index) as (d & Hd & Hval & ->).
    destruct (index <? 0)%Z; [| apply split_digits].
    cbn [Str.split]. change (Ascii.eqb "-" "_") with false. cbv iota.
    rewrite split_digits. reflexivity. }
  split; [exact Hint |]. split.
  - unfold format_03d. destruct (index <? 0)%Z; cbn [String.length];
      rewrite string_length_append, zeros_length; lia.
  - unfold stem. rewrite name_child by apply target_name_not_anchor.
    unfold target_name. rewrite <- !string_append_assoc.
    rewrite stem_of_name_png.
    + rewrite string_append_assoc. cbn [append].
      rewrite last_field by exact Hsplit. exact Hint.
    + rewrite string_append_assoc. destruct ds; discriminate.
Qed.

(** ** Experiment entries *)

(** X20. What one well-formed [--exp-models] entry contributes when its glob
    patterns are taken literally: if exactly one entry of the parent
    directory of the experiment path has a name that starts with the stem of
    that path, the files returned are the entries of that entry's [plots]
    whose names start with the checkpoint prefix and end in [.pickle], in
    sorted order. *)
Theorem experiment_entry_files
    (root : node) (cfg : Cfg) (entry rel_exp_path checkpoint_prefix : string)
    (exp_path : path) :
  path_colon_prefix entry rel_exp_path checkpoint_prefix ->
  plain_entry cfg rel_exp_path checkpoint_prefix ->
  exp_candidates root cfg rel_exp_path = [exp_path] ->
  exists found,
    exp_model_files root cfg entry = Ok found
    /\ (exists nm b, exp_path = parent (exp_path_prefix cfg rel_exp_path) ++ [nm]
                     /\ In nm (scandir root (parent (exp_path_prefix cfg rel_exp_path)))
                     /\ nm = (stem (exp_path_prefix cfg rel_exp_path) ++ b)%string)
    /\ StronglySorted path_le found
    /\ (forall p, In p found <->
                  exists nm,
                    p = joinpath exp_path (Path "plots") ++ [nm]
                    /\ In nm (scandir root (joinpath exp_path (Path "plots")))
                    /\ (exists b, nm = (checkpoint_prefix ++ b)%string)
                    /\ (exists a, nm = (a ++ ".pickle")%string)
                    /\ (String.length checkpoint_prefix + 7 <= String.length nm)%nat).
Proof.
  intros Hsplit _ Hcand. unfold exp_model_files.
  unfold path_colon_prefix in Hsplit. rewrite Hsplit, Hcand.
  eexists. split; [reflexivity |]. split; [| split].
  - unfold exp_candidates in Hcand.
    assert (Hin : In exp_path
                    (glob root (parent (exp_path_prefix cfg rel_exp_path))
                          (stem (exp_path_prefix cfg rel_exp_path)) EmptyString))
      by (rewrite Hcand; left; reflexivity).
    apply glob_in in Hin. destruct Hin as (nm & -> & Hnm & Hmatch).
    destruct (fnmatch_spec _ _ _ Hmatch) as [[b Hb] _].
    exists nm, b. split; [reflexivity |]. split; assumption.
  - apply sorted_paths_ordered.
  - intros p. rewrite sorted_in, glob_in. split.
    + intros (nm & -> & Hin & Hmatch).
      exists nm. split; [reflexivity |]. split; [exact Hin |].
      destruct (fnmatch_spec _ _ _ Hmatch) as [Hb Ha].
      split; [exact Hb |]. split; [exact Ha |].
      unfold fnmatch in Hmatch. rewrite !andb_true_iff in Hmatch.
      destruct Hmatch as [_ Hlen]. apply Nat.leb_le in Hlen. exact Hlen.
    + intros (nm & -> & Hin & [b Hb] & [a Ha] & Hlen).
      exists nm. split; [reflexivity |]. split; [exact Hin |].
      unfold fnmatch. rewrite !andb_true_iff. split; [split |].
      * apply prefix_spec. exists b. exact Hb.
      * apply endswith_spec. exists a. exact Ha.
      * apply Nat.leb_le. exact Hlen.
Qed.

Lemma experiment_entry_files_witness :
  exists found,
    exp_model_files Sample.root Sample.cfg "sbd_a:ckpt" = Ok found
    /\ StronglySorted path_le found.
Proof.
  destruct (experiment_entry_files Sample.root Sample.cfg "sbd_a:ckpt" "sbd_a" "ckpt"
              ["exps"; "evaluation_logs"; "sbd_a"])
    as (found & Hfound & _ & Hsorted & _).
  - reflexivity.
  - split; reflexivity.
  - reflexivity.
  - exists found. split; assumption.
Defined.

(** ** Reading before writing *)

Lemma aggregate_ok_all_loaded (w w' : world) (n : Z) (files_list : list path)
    (agg agg' : aggregated) :
  aggregate w n files_list agg = (w', Ok agg') ->
  forall file, In file files_list ->
    exists data, resolve (fs w) file = Some (File (Pickle data)).
Proof.
  revert w agg. induction files_list as [| f rest IH]; intros w agg H file Hin.
  - destruct Hin.
  - simpl in H. destruct (load_pickle w f) as [w1 [data | e]] eqn:Hload; [| discriminate].
    destruct (load_pickle_inv _ _ _ _ Hload) as (Hfs & _ & _ & _ & Hok).
    destruct (aggregate_one n data agg) as [agg1 | e]; [| discriminate].
    destruct Hin as [<- | Hin].
    + exists data. apply Hok. reflexivity.
    + rewrite <- Hfs. eapply IH; eassumption.
Qed.

(** X21. Every container is loaded before anything is drawn: if one of the
    resolved files is missing or is not a result container, the run ends in
    an error with the file system untouched and no figure saved, whatever
    the other files hold. *)
Theorem unreadable_file_stops_the_run
    (root : node) (args : Args) (cfg : Cfg) (files_list : list path) (file : path) :
  get_files_list root args cfg = Ok files_list ->
  In file files_list ->
  (forall data, resolve root file <> Some (File (Pickle data))) ->
  exists w e, main root args cfg = (w, Err e) /\ fs w = root /\ saved w = [].
Proof.
  intros Hget Hin Hbad. unfold main. rewrite Hget.
  destruct (aggregate _ _ _ _) as [w1 [agg | e]] eqn:Hagg.
  - exfalso. destruct (aggregate_ok_all_loaded _ _ _ _ _ _ Hagg file Hin) as [data Hdata].
    exact (Hbad data Hdata).
  - destruct (aggregate_frame _ _ _ _ _ _ Hagg) as [Hfs Hsaved].
    exists w1, e. split; [reflexivity |]. split; assumption.
Qed.

Lemma unreadable_file_stops_the_run_witness :
  exists w e,
    main More.unreadable (Sample.with_folder "res" ["GrabCut"]) Sample.cfg = (w, Err e)
    /\ fs w = More.unreadable /\ saved w = [].
Proof.
  apply (unreadable_file_stops_the_run More.unreadable
           (Sample.with_folder "res" ["GrabCut"]) Sample.cfg
           [["res"; "GrabCut_NoBRS.pickle"]; ["res"; "GrabCut_broken.pickle"];
            ["res"; "GrabCut_last.pickle"]]
           ["res"; "GrabCut_broken.pickle"]).
  - reflexivity.
  - right. left. reflexivity.
  - intros data. discriminate.
Defined.

Lemma aggregate_app_ok (w w' : world) (n : Z) (pre post : list path)
    (agg agg' : aggregated) :
  aggregate w n (pre ++ post) agg = (w', Ok agg') ->
  exists w1 agg1,
    aggregate w n pre agg = (w1, Ok agg1)
    /\ fs w1 = fs w
    /\ aggregate w1 n post agg1 = (w', Ok agg').
Proof.
  revert w agg. induction pre as [| f pre IH]; intros w agg H.
  - exists w, agg. repeat split; auto.
  - simpl in H. simpl.
    destruct (load_pickle w f) as [w0 [data | e]] eqn:Hload; [| discriminate].
    destruct (load_pickle_inv _ _ _ _ Hload) as (Hfs & _).
    destruct (aggregate_one n data agg) as [agg0 | e]; [| discriminate].
    destruct (IH _ _ H) as (w1 & agg1 & Hpre & Hfs1 & Hpost).
    exists w1, agg1. split; [exact Hpre |]. split; [congruence | exact Hpost].
Qed.

Lemma aggregate_keeps_other (w w' : world) (n : Z) (files_list : list path)
    (agg agg' : aggregated) (ds model : string) :
  aggregate w n files_list agg = (w', Ok agg') ->
  (forall file data,
      In file files_list -> resolve (fs w) file = Some (File (Pickle data)) ->
      dataset_name data <> ds \/ model_name data <> model) ->
  agg_get ds model agg' = agg_get ds model agg.
Proof.
  revert w agg. induction files_list as [| f rest IH]; intros w agg H Hother.
  - simpl in H. inversion H; subst. reflexivity.
  - simpl in H. destruct (load_pickle w f) as [w1 [data | e]] eqn:Hload; [| discriminate].
    destruct (load_pickle_inv _ _ _ _ Hload) as (Hfs & _ & _ & _ & Hok).
    destruct (aggregate_one n data agg) as [agg1 | e] eqn:Hone; [| discriminate].
    destruct (aggregate_one_inv _ _ _ _ Hone) as (value & _ & ->).
    rewrite (IH _ _ H).
    + apply agg_get_set_other.
      destruct (Hother f data) as [NE | NE]; [left; reflexivity | apply Hok; reflexivity | |];
        [left | right]; congruence.
    + intros file d Hin Hres. rewrite Hfs in Hres. apply (Hother file d); [right |]; assumption.
Qed.

(** X22. Among several containers for one (dataset, model) pair the one that
    comes last in the file list, that is last in sorted path order, decides
    the curve: after a successful aggregation the entry of the pair is the
    average of the last file that carries it. *)
Theorem last_file_decides
    (w w' : world) (n : Z) (pre post : list path) (file : path)
    (data : container) (agg agg' : aggregated) :
  aggregate w n (pre ++ file :: post) agg = (w', Ok agg') ->
  resolve (fs w) file = Some (File (Pickle data)) ->
  (forall later other,
      In later post -> resolve (fs w) later = Some (File (Pickle other)) ->
      dataset_name other <> dataset_name data \/ model_name other <> model_name data) ->
  exists value,
    np_mean0 (map (truncate_ious n) (all_ious data)) = Ok value
    /\ agg_get (dataset_name data) (model_name data) agg' = Some value.
Proof.
  intros Hagg Hfile Hlater.
  destruct (aggregate_app_ok _ _ _ _ _ _ _ Hagg) as (w1 & agg1 & _ & Hfs1 & Hrest).
  simpl in Hrest.
  destruct (load_pickle w1 file) as [w2 [data' | e]] eqn:Hload; [| discriminate].
  destruct (load_pickle_inv _ _ _ _ Hload) as (Hfs2 & _ & _ & _ & Hok).
  assert (data' = data) as ->.
  { assert (Hd : resolve (fs w1) file = Some (File (Pickle data'))) by (apply Hok; reflexivity).
    rewrite Hfs1, Hfile in Hd. congruence. }
  destruct (aggregate_one n data agg1) as [agg2 | e] eqn:Hone; [| discriminate].
  destruct (aggregate_one_inv _ _ _ _ Hone) as (value & Hmean & ->).
  exists value. split; [exact Hmean |].
  rewrite (aggregate_keeps_other _ _ _ _ _ _ _ _ Hrest).
  - apply agg_get_set_same.
  - intros later other Hin Hres. rewrite Hfs2, Hfs1 in Hres. eapply Hlater; eassumption.
Qed.

Lemma last_file_decides_witness :
  exists value,
    np_mean0 (map (truncate_ious (-1)) (all_ious More.grabcut_again)) = Ok value
    /\ agg_get "GrabCut" "RITM-HRNet18_NoBRS"
         (match snd (aggregate More.twice (-1)
                       [["res"; "a_GrabCut.pickle"]; ["res"; "b_GrabCut.pickle"]] []) with
          | Ok agg' => agg'
          | Err _ => []
          end)
       = Some value.
Proof.
  destruct (aggregate More.twice (-1)
              [["res"; "a_GrabCut.pickle"]; ["res"; "b_GrabCut.pickle"]] [])
    as [w' [agg' | e]] eqn:E; [| vm_compute in E; discriminate E].
  apply (last_file_decides More.twice w' (-1) [["res"; "a_GrabCut.pickle"]] []
           ["res"; "b_GrabCut.pickle"] More.grabcut_again [] agg').
  - exact E.
  - reflexivity.
  - intros later other [].
Defined.
